(** * Quartz / sync_ob_posts.py: image-reference resolution and rewriting

    A shallow embedding of [ObsidianPostSync] (src/sync_ob_posts.py): the
    attachment locator [_locate_image_by_token], the collision-free copy
    [_copy_image_to_image_dir] and the two-pass rewriter
    [_process_single_markdown] with its callbacks [repl_obsidian] and
    [replace_md_img].

    Modelling conventions.
    - A text is held as its UTF-8 bytes, one character of a [string] for
      each byte; reading a document checks the encoding and translates
      line ends as Python's text mode does.  The delimiters of the two
      regular expressions are below 128, so matching the bytes is
      matching the characters.  The white space of [str.strip] and the
      digits of [\d] are those below 128.
    - [pathlib] is the POSIX flavour as in CPython 3.8 to 3.12; a path is
      the list of its components from the file-system root.  There are no
      symbolic links, no permissions and no limits on name length.
    - The file system is one tree shared by the attachment root, the
      documents and the output image directory, so aliasing between them
      is visible.  A directory lists its entries in the order [os.scandir]
      yields them.
    - [fnmatch], the wildcard matcher behind [Path.rglob] for a pattern
      with [*], [?] or [[], is a parameter of the development.  A pattern
      that holds [**] inside a component makes [Path.rglob] raise
      [ValueError]; the pattern [**] itself yields the directories. *)

From Stdlib Require Import String Ascii List Bool Arith Lia.
From Stdlib Require Import DecimalString DecimalNat Finite.
Import ListNotations.

Open Scope list_scope.
Open Scope string_scope.

(* ================================================================== *)
(** ** Python strings *)

Module Str.

(** [str.startswith]. *)
Definition startswith (p s : string) : bool := String.prefix p s.

(** Characters for which [str.isspace] holds, below 128. *)
Definition isspace (c : ascii) : bool :=
  let n := nat_of_ascii c in
  (((9 <=? n) && (n <=? 13)) || ((28 <=? n) && (n <=? 32)))%nat.

Fixpoint lstrip_by (p : ascii -> bool) (s : string) : string :=
  match s with
  | EmptyString => EmptyString
  | String c s' => if p c then lstrip_by p s' else s
  end.

Fixpoint rstrip_by (p : ascii -> bool) (s : string) : string :=
  match s with
  | EmptyString => EmptyString
  | String c s' =>
      match rstrip_by p s' with
      | EmptyString => if p c then EmptyString else String c EmptyString
      | r => String c r
      end
  end.

Definition strip_by (p : ascii -> bool) (s : string) : string :=
  rstrip_by p (lstrip_by p s).

(** [s.strip()]. *)
Definition strip (s : string) : string := strip_by isspace s.

(** [s.strip(chars)] for a one-character [chars]. *)
Definition strip_char (c : ascii) (s : string) : string :=
  strip_by (Ascii.eqb c) s.

(** [s.replace(c, "")] for a one-character [c]. *)
Fixpoint remove_char (c : ascii) (s : string) : string :=
  match s with
  | EmptyString => EmptyString
  | String a s' =>
      if Ascii.eqb a c then remove_char c s' else String a (remove_char c s')
  end.

(** [s.rfind(c)], [None] for -1. *)
Fixpoint rfind (c : ascii) (s : string) : option nat :=
  match s with
  | EmptyString => None
  | String a s' =>
      match rfind c s' with
      | Some i => Some (S i)
      | None => if Ascii.eqb a c then Some 0 else None
      end
  end.

(** [c in s]. *)
Fixpoint contains (c : ascii) (s : string) : bool :=
  match s with
  | EmptyString => false
  | String a s' => Ascii.eqb a c || contains c s'
  end.

(** The longest prefix of [s] whose characters satisfy [p], and the rest:
    what a greedy character-class repetition consumes. *)
Fixpoint span (p : ascii -> bool) (s : string) : string * string :=
  match s with
  | EmptyString => (EmptyString, EmptyString)
  | String c s' =>
      if p c then let (a, b) := span p s' in (String c a, b)
      else (EmptyString, s)
  end.

(** [s] without its prefix [p], when it has that prefix. *)
Fixpoint drop_prefix (p s : string) : option string :=
  match p with
  | EmptyString => Some s
  | String a p' =>
      match s with
      | EmptyString => None
      | String b s' => if Ascii.eqb a b then drop_prefix p' s' else None
      end
  end.

(** [s.split(c)]. *)
Fixpoint split (c : ascii) (s : string) : list string :=
  match s with
  | EmptyString => [EmptyString]
  | String a s' =>
      if Ascii.eqb a c then EmptyString :: split c s'
      else match split c s' with
           | h :: t => String a h :: t
           | [] => [String a EmptyString]
           end
  end.

(** [str(n)] for a natural number. *)
Definition of_nat (n : nat) : string :=
  NilEmpty.string_of_uint (Nat.to_uint n).

(** The double quote, character 34. *)
Definition dq : string := String (ascii_of_nat 34) EmptyString.

Definition isdigit (c : ascii) : bool :=
  let n := nat_of_ascii c in ((48 <=? n) && (n <=? 57))%nat.

(** Every character of [s] satisfies [p]. *)
Fixpoint all (p : ascii -> bool) (s : string) : bool :=
  match s with
  | EmptyString => true
  | String c s' => p c && all p s'
  end.

(** [s] is empty or starts with a character outside [p]: where a
    greedy run of [p] ends. *)
Definition stops (p : ascii -> bool) (s : string) : Prop :=
  match s with
  | EmptyString => True
  | String c _ => p c = false
  end.

(** [sub in s] for the two-character [sub = a b]. *)
Fixpoint occurs2 (a b : ascii) (s : string) : bool :=
  match s with
  | EmptyString => false
  | String c s' =>
      match s' with
      | EmptyString => false
      | String d _ => (Ascii.eqb c a && Ascii.eqb d b) || occurs2 a b s'
      end
  end.



(** What Python's text mode makes of the line ends when it reads:
    a carriage return, with or without a line feed behind it, becomes
    one line feed. *)
Fixpoint universal_newlines (s : string) : string :=
  match s with
  | EmptyString => EmptyString
  | String c s' =>
      if Ascii.eqb c "013" then
        match s' with
        | String d s'' =>
            if Ascii.eqb d "010" then String "010" (universal_newlines s'')
            else String "010" (universal_newlines s')
        | EmptyString => String "010" EmptyString
        end
      else String c (universal_newlines s')
  end.

(** The byte [b] lies between [lo] and [hi]. *)
Definition between (lo hi : nat) (b : ascii) : bool :=
  let n := nat_of_ascii b in ((lo <=? n) && (n <=? hi))%nat.

(** The bytes are well-formed UTF-8, as the strict decoder behind
    [read_text(encoding="utf-8")] wants them: no stray or missing
    continuation byte, no overlong form, no surrogate, nothing above
    U+10FFFF. *)
Fixpoint utf8_valid (s : string) : bool :=
  match s with
  | EmptyString => true
  | String b0 r0 =>
      if between 0 127 b0 then utf8_valid r0
      else if between 194 223 b0 then
        match r0 with
        | String b1 r1 => between 128 191 b1 && utf8_valid r1
        | _ => false
        end
      else if between 224 239 b0 then
        match r0 with
        | String b1 (String b2 r2) =>
            (if between 224 224 b0 then between 160 191 b1
             else if between 237 237 b0 then between 128 159 b1
             else between 128 191 b1)
            && between 128 191 b2 && utf8_valid r2
        | _ => false
        end
      else if between 240 244 b0 then
        match r0 with
        | String b1 (String b2 (String b3 r3)) =>
            (if between 240 240 b0 then between 144 191 b1
             else if between 244 244 b0 then between 128 143 b1
             else between 128 191 b1)
            && between 128 191 b2 && between 128 191 b3 && utf8_valid r3
        | _ => false
        end
      else false
  end.

End Str.

(* ================================================================== *)
(** ** pathlib, POSIX flavour *)

Module PathLib.

(** A path as its components; [..] is kept as a component until the
    operating system or [resolve] interprets it. *)
Definition path := list string.

(** The components of [Path(s)]: split at [/], empty and [.]
    components dropped. *)
Definition parts (s : string) : list string :=
  filter (fun x => negb (x =? "") && negb (x =? ".")) (Str.split "/" s).

Definition is_absolute (s : string) : bool := Str.startswith "/" s.

(** [Path(s).name]. *)
Definition name_of (s : string) : string := last (parts s) "".

(** [p.name] for a path already split. *)
Definition pname (p : path) : string := last p "".

(** [p.parent]. *)
Definition parent (p : path) : path := removelast p.

(** [p / x] for one component [x]; an empty [x] adds nothing. *)
Definition pjoin (p : path) (x : string) : path :=
  if x =? "" then p else (p ++ [x])%list.

(** [PurePath.suffix] of a file name: from the last dot on, unless that
    dot is the first or the last character. *)
Definition suffix (name : string) : string :=
  match Str.rfind "." name with
  | Some i =>
      if ((0 <? i) && (i <? String.length name - 1))%nat
      then substring i (String.length name - i) name
      else ""
  | None => ""
  end.

(** [PurePath.stem]. *)
Definition stem (name : string) : string :=
  match Str.rfind "." name with
  | Some i =>
      if ((0 <? i) && (i <? String.length name - 1))%nat
      then substring 0 i name
      else name
  | None => name
  end.

(** Lexical normalisation of [..], as [Path.resolve] does on a tree
    without symbolic links; [..] at the root stays at the root. *)
Fixpoint normalize (acc : path) (p : path) : path :=
  match p with
  | [] => acc
  | c :: p' =>
      if c =? ".." then normalize (removelast acc) p'
      else normalize (acc ++ [c])%list p'
  end.

(** [(base / s).resolve()] for a string [s] and a resolved [base]. *)
Definition resolve_from (base : path) (s : string) : path :=
  normalize (if is_absolute s then [] else base) (parts s).

Definition show (p : path) : string := String.concat "/" p.

End PathLib.

(* ================================================================== *)
(** ** The file system *)

Module FS.
Import PathLib.

Unset Elimination Schemes.
Inductive node : Type :=
| File (data : string)
| Dir (entries : list (string * node)).
Set Elimination Schemes.

Fixpoint assoc {A : Type} (k : string) (l : list (string * A)) : option A :=
  match l with
  | [] => None
  | (k', v) :: l' => if k' =? k then Some v else assoc k l'
  end.

(** Replace the entry named [k], or add it after the others. *)
Fixpoint set_entry {A : Type} (k : string) (v : A) (l : list (string * A))
  : list (string * A) :=
  match l with
  | [] => [(k, v)]
  | (k', v') :: l' =>
      if k' =? k then (k, v) :: l' else (k', v') :: set_entry k v l'
  end.

(** Descent along a path without [..]. *)
Fixpoint lookup (n : node) (p : path) : option node :=
  match p with
  | [] => Some n
  | c :: p' =>
      match n with
      | Dir es =>
          match assoc c es with
          | Some x => lookup x p'
          | None => None
          end
      | File _ => None
      end
  end.

(** The operating system's walk: every component is taken from a
    directory, [..] goes to the parent. *)
Fixpoint walk (root : node) (acc : path) (p : path) : option path :=
  match p with
  | [] => Some acc
  | c :: p' =>
      match lookup root acc with
      | Some (Dir _) =>
          if c =? ".." then walk root (removelast acc) p'
          else walk root (acc ++ [c])%list p'
      | _ => None
      end
  end.

Definition stat (root : node) (p : path) : option node :=
  match walk root [] p with
  | Some q => lookup root q
  | None => None
  end.

(** [Path.exists] and [Path.is_file]. *)
Definition exists_ (root : node) (p : path) : bool :=
  match stat root p with Some _ => true | None => false end.

Definition is_file (root : node) (p : path) : bool :=
  match stat root p with Some (File _) => true | _ => false end.

(** Store [x] at the path [p] (without [..]): the parent must be a
    directory. *)
Fixpoint put (p : path) (x : node) (n : node) {struct p} : option node :=
  match p with
  | [] => Some x
  | c :: p' =>
      match n with
      | File _ => None
      | Dir es =>
          let sub :=
            match assoc c es with
            | Some ch => put p' x ch
            | None => match p' with [] => Some x | _ => None end
            end in
          match sub with
          | Some ch => Some (Dir (set_entry c ch es))
          | None => None
          end
      end
  end.

(** A name a directory entry can have. *)
Definition valid_name (k : string) : bool :=
  negb (k =? "") && negb (k =? ".") && negb (k =? "..")
  && negb (Str.contains "/" k).

Fixpoint nodupb (l : list string) : bool :=
  match l with
  | [] => true
  | k :: l' => negb (existsb (String.eqb k) l') && nodupb l'
  end.

(** A tree as a file system holds it: in every directory the names are
    valid and pairwise different. *)
Fixpoint wf (n : node) {struct n} : bool :=
  match n with
  | File _ => true
  | Dir es =>
      nodupb (map fst es)
      && forallb (fun kc => valid_name (fst kc) && wf (snd kc)) es
  end.

(** [tree'] has every regular file of [tree], with the same bytes. *)
Definition extends (tree tree' : node) : Prop :=
  forall p d, stat tree p = Some (File d) -> stat tree' p = Some (File d).

(** Every directory of the tree under [n], parents before children and
    children in listing order, each with its entries. *)
Fixpoint all_dirs (p : path) (n : node) {struct n}
  : list (path * list (string * node)) :=
  match n with
  | File _ => []
  | Dir es =>
      (p, es) ::
      flat_map (fun kc => all_dirs (p ++ [fst kc])%list (snd kc)) es
  end.

End FS.

(* ================================================================== *)
(** ** Regular expressions of the rewriter *)

Module Re.

(** A match of [!\[\[([^|\]]+)(\|[^\]]+)?\]\]]: group 0, group 1 and
    the optional group 2 (with its leading pipe). *)
Record ematch : Type :=
  { e_all : string; e_token : string; e_param : option string }.

(** A match of [!\[[^\]]*\]\(([^)]+)\)]: group 0 and group 1. *)
Record smatch : Type := { s_all : string; s_path : string }.

Definition not_pipe_rbracket (c : ascii) : bool :=
  negb (Ascii.eqb c "|" || Ascii.eqb c "]").
Definition not_rbracket (c : ascii) : bool := negb (Ascii.eqb c "]").
Definition not_rparen (c : ascii) : bool := negb (Ascii.eqb c ")").

(** The embed pattern anchored at the start of [s]; the second
    component is what follows the match.  Both repetitions are greedy
    and each is followed by a character outside its class, so giving
    characters back never helps: the longest run is the only one
    tried. *)
Definition match_embed (s : string) : option (ematch * string) :=
  match Str.drop_prefix "![[" s with
  | None => None
  | Some s1 =>
      let (tok, s2) := Str.span not_pipe_rbracket s1 in
      if tok =? "" then None
      else
        match Str.drop_prefix "]]" s2 with
        | Some rest =>
            Some ({| e_all := "![[" ++ tok ++ "]]";
                     e_token := tok; e_param := None |}, rest)
        | None =>
            match s2 with
            | String "|" s3 =>
                let (par, s4) := Str.span not_rbracket s3 in
                if par =? "" then None
                else
                  match Str.drop_prefix "]]" s4 with
                  | Some rest =>
                      Some ({| e_all := "![[" ++ tok ++ "|" ++ par ++ "]]";
                               e_token := tok;
                               e_param := Some ("|" ++ par) |}, rest)
                  | None => None
                  end
            | _ => None
            end
        end
  end.

(** The standard-markup pattern anchored at the start of [s]. *)
Definition match_std (s : string) : option (smatch * string) :=
  match Str.drop_prefix "![" s with
  | None => None
  | Some s1 =>
      let (alt, s2) := Str.span not_rbracket s1 in
      match Str.drop_prefix "](" s2 with
      | None => None
      | Some s3 =>
          let (pth, s4) := Str.span not_rparen s3 in
          if pth =? "" then None
          else
            match Str.drop_prefix ")" s4 with
            | Some rest =>
                Some ({| s_all := "![" ++ alt ++ "](" ++ pth ++ ")";
                         s_path := pth |}, rest)
            | None => None
            end
      end
  end.

(** [re.match(r"(\d+)x(\d+)$", dims)]: the two groups.  [$] also
    matches just before a newline that ends the string. *)
Definition match_dims (dims : string) : option (string * string) :=
  let (w, r1) := Str.span Str.isdigit dims in
  if w =? "" then None
  else
    match r1 with
    | String "x" r2 =>
        let (h, r3) := Str.span Str.isdigit r2 in
        if h =? "" then None
        else if (r3 =? "") || (r3 =? String "010" "") then Some (w, h)
        else None
    | _ => None
    end.

(** [s] starts with [!] and [[], as every match of the two patterns
    does. *)
Definition starts_bang (s : string) : bool :=
  match s with
  | String "!" (String "[" _) => true
  | _ => false
  end.

(** [s] is a width and a height, each a non-empty run of digits, with
    an [x] between them. *)
Definition WxH (s w h : string) : Prop :=
  s = w ++ "x" ++ h /\ w <> "" /\ h <> ""
  /\ Str.all Str.isdigit w = true /\ Str.all Str.isdigit h = true.

Definition newline : string := String "010" "".

End Re.

(* ================================================================== *)
(** ** Effects: the file system, standard output, exceptions *)

Module Eff.
Import PathLib FS.

(** What the program prints, one constructor per [print] of the
    rewriting engine. *)
Inductive line : Type :=
| Processing (rel : path)              (* "处理文件: {rel}" *)
| ReadFailed (rel : path)              (* "⚠️  读取失败 {rel}: {exc}" *)
| WriteFailed (rel : path)             (* "⚠️  写入失败 {rel}: {exc}" *)
| NotFound (token : string)            (* "⚠️  未找到图片: {token}" *)
| Copied (src_name dst_name : string). (* "复制图片: {src.name} → image/{dst.name}" *)

Inductive exn : Type :=
| IsADirectoryError
| FileNotFoundError     (* also stands for NotADirectoryError *)
| SameFileError
| ValueError
| LoopExhausted.        (* the probing loop ran out of fuel: never raised *)

Record world : Type := mkWorld { fs : node; out : list line }.

Inductive result (A : Type) : Type :=
| Ok (a : A) (w : world)
| Raise (e : exn).
Arguments Ok {A} a w.
Arguments Raise {A} e.

Definition M (A : Type) : Type := world -> result A.

Definition ret {A : Type} (a : A) : M A := fun w => Ok a w.

Definition bind {A B : Type} (c : M A) (k : A -> M B) : M B :=
  fun w => match c w with
           | Ok a w' => k a w'
           | Raise e => Raise e
           end.

Definition raise {A : Type} (e : exn) : M A := fun _ => Raise e.

Definition get_fs : M node := fun w => Ok (fs w) w.

Definition set_fs (n : node) : M unit :=
  fun w => Ok tt {| fs := n; out := out w |}.

Definition print (l : line) : M unit :=
  fun w => Ok tt {| fs := fs w; out := (out w ++ [l])%list |}.

(** [try: c except Exception: h]. *)
Definition try_except {A : Type} (c : M A) (h : exn -> M A) : M A :=
  fun w => match c w with
           | Ok a w' => Ok a w'
           | Raise e => h e w
           end.

Definition is_not_found (l : line) : bool :=
  match l with NotFound _ => true | _ => false end.

(** [w'] comes after [w]: the regular files of [w] are kept and the
    output of [w] is the beginning of the output of [w']. *)
Definition grows (w w' : world) : Prop :=
  extends (fs w) (fs w') /\ exists ls, out w' = (out w ++ ls)%list.

End Eff.

Notation "x <- c ;; k" := (Eff.bind c (fun x => k))
  (at level 61, c at next level, right associativity).
Notation "c ;;; k" := (Eff.bind c (fun _ => k))
  (at level 61, right associativity).

Module Shutil.
Import PathLib FS Eff.

(** [shutil.copyfile(src, dst)]: the same file twice is refused; then
    the source is opened for reading and the destination for writing,
    in this order, and the bytes of the source are written to the
    destination, created or truncated. *)
Definition copyfile (src dst : path) : M unit :=
  root <- get_fs ;;
  let samefile :=
    match walk root [] src, walk root [] dst with
    | Some s, Some d =>
        if list_eq_dec string_dec s d then
          match lookup root s with Some _ => true | None => false end
        else false
    | _, _ => false
    end in
  if samefile then raise SameFileError
  else
    match stat root src with
    | Some (File data) =>
        match walk root [] dst with
        | Some d =>
            match lookup root d with
            | Some (Dir _) => raise IsADirectoryError
            | _ =>
                match put d (File data) root with
                | Some root' => set_fs root'
                | None => raise FileNotFoundError
                end
            end
        | None => raise FileNotFoundError
        end
    | Some (Dir _) => raise IsADirectoryError
    | None => raise FileNotFoundError
    end.

(** [shutil.copy2(src, dst)]: into [dst], or into [dst / src.name]
    when [dst] is a directory.  Metadata is not modelled. *)
Definition copy2 (src dst : path) : M unit :=
  root <- get_fs ;;
  match stat root dst with
  | Some (Dir _) => copyfile src (pjoin dst (pname src))
  | _ => copyfile src dst
  end.

End Shutil.

(* ================================================================== *)
(** ** ObsidianPostSync *)

Module Sync.
Import PathLib FS Eff Shutil Re.

(** The three directories of [__init__], resolved. *)
Record config : Type :=
  { source_dir : path; target_dir : path; attachment_dir : path }.

Definition image_dir (cfg : config) : path :=
  (target_dir cfg ++ ["image"])%list.

Definition exts : list string :=
  [".png"; ".jpg"; ".jpeg"; ".gif"; ".svg"; ".webp"].

(** The candidate names of [_locate_image_by_token]. *)
Definition candidates (token : string) : list string :=
  let name := name_of token in
  let has_ext := negb (suffix name =? "") in
  name ::
  (if has_ext then []
   else
     let base := Str.remove_char "." name in
     List.app (map (fun ext => name ++ ext) exts)
              (map (fun ext => base ++ ext) exts)).

(** pathlib takes a pattern with one of these characters as a
    wildcard pattern. *)
Definition is_wildcard (pat : string) : bool :=
  Str.contains "*" pat || Str.contains "?" pat || Str.contains "[" pat.

Section WithGlob.

(** [fnmatch pat name]: the compiled [fnmatch.translate(pat)] matches
    the whole of [name]. *)
Variable fnmatch : string -> string -> bool.

(** What [root.rglob(pat)] yields for a one-component pattern that
    is accepted and is not [**], in the order the paths are yielded:
    directories parents first; in each, the child named [pat] if it
    exists, or for a wildcard pattern the entries that match, in
    listing order. *)
Definition select (tree : node) (root : path) (pat : string) : list path :=
  match stat tree root with
  | Some (Dir es) =>
      if is_wildcard pat then
        flat_map
          (fun d => map (fun e => (fst d ++ [fst e])%list)
                        (filter (fun e => fnmatch pat (fst e)) (snd d)))
          (all_dirs root (Dir es))
      else
        filter (exists_ tree)
               (map (fun d => pjoin (fst d) pat) (all_dirs root (Dir es)))
  | _ => []
  end.

(** [root.rglob(pat)] for a one-component pattern.  The pattern [**]
    yields the root and every directory below it, parents first; a
    pattern that holds [**] and more raises [ValueError], whether
    the root exists or not. *)
Definition rglob (tree : node) (root : path) (pat : string)
  : exn + list path :=
  if pat =? "**" then
    inr (match stat tree root with
         | Some (Dir es) => map fst (all_dirs root (Dir es))
         | _ => []
         end)
  else if Str.occurs2 "*" "*" pat then inl ValueError
  else inr (select tree root pat).

(** [Path.rglob] raises for the pattern. *)
Definition invalid_pattern (pat : string) : bool :=
  negb (pat =? "**") && Str.occurs2 "*" "*" pat.

(** [name] answers the candidate [cand] in the recursive search. *)
Definition name_matches (cand name : string) : bool :=
  if is_wildcard cand then fnmatch cand name else cand =? name.

(** [p] is a hit for [cand]: the child of the root of that very
    name, or a node anywhere below the root, at any depth, whose
    name answers [cand]. *)
Definition hit (tree : node) (root : path) (cand : string) (p : path)
  : Prop :=
  (p = pjoin root cand /\ exists_ tree p = true)
  \/ (exists q n, p = (root ++ q ++ [n])%list
                  /\ lookup tree p <> None
                  /\ name_matches cand n = true).

(** The loop of [_locate_image_by_token] over the candidates. *)
Fixpoint first_hit (tree : node) (root : path) (cands : list string)
  : exn + option path :=
  match cands with
  | [] => inr None
  | cand :: rest =>
      let p := pjoin root cand in
      if exists_ tree p then inr (Some p)
      else
        match rglob tree root cand with
        | inl e => inl e
        | inr yielded =>
            match find (exists_ tree) yielded with
            | Some found => inr (Some found)
            | None => first_hit tree root rest
            end
        end
  end.

Definition _locate_image_by_token (cfg : config) (token : string)
  : M (option path) :=
  tree <- get_fs ;;
  match first_hit tree (attachment_dir cfg) (candidates token) with
  | inl e => raise e
  | inr found => ret found
  end.

(** [f"{stem}_{idx}{ext}"] for the stem and suffix of [name]. *)
Definition numbered (name : string) (idx : nat) : string :=
  stem name ++ "_" ++ Str.of_nat idx ++ suffix name.

(** The [while True] loop of [_copy_image_to_image_dir]: the first
    [idx], counting up, whose numbered name is unused. *)
Fixpoint probe (tree : node) (dir : path) (stem ext : string)
         (fuel idx : nat) : option path :=
  match fuel with
  | 0 => None
  | S fuel' =>
      let alt := pjoin dir (stem ++ "_" ++ Str.of_nat idx ++ ext) in
      if exists_ tree alt then probe tree dir stem ext fuel' (S idx)
      else Some alt
  end.

(** As many probes as the output directory has entries, and one
    more, always reach an unused name. *)
Definition probe_fuel (tree : node) (dir : path) : nat :=
  match stat tree dir with
  | Some (Dir es) => S (List.length es)
  | _ => 1
  end.

Definition _copy_image_to_image_dir (cfg : config) (src : path) : M path :=
  tree <- get_fs ;;
  let dst := pjoin (image_dir cfg) (pname src) in
  if negb (exists_ tree dst) then
    copy2 src dst ;;;
    print (Copied (pname src) (pname dst)) ;;;
    ret dst
  else
    match probe tree (image_dir cfg) (stem (pname dst)) (suffix (pname dst))
                (probe_fuel tree (image_dir cfg)) 1 with
    | Some alt =>
        copy2 src alt ;;;
        print (Copied (pname src) (pname alt)) ;;;
        ret alt
    | None => raise LoopExhausted
    end.

(** [re.sub(pattern, repl, s)] for a pattern that matches no empty
    string: at each position the anchored matcher is tried; a match
    is replaced by what the callback returns and scanning goes on
    after it.  [fuel] bounds the number of positions; [String.length s]
    is enough. *)
Fixpoint sub_from {T : Type} (matcher : string -> option (T * string))
         (repl : T -> M string) (fuel : nat) (s : string) : M string :=
  match fuel with
  | 0 => ret s
  | S fuel' =>
      match matcher s with
      | Some (m, rest) =>
          r <- repl m ;;
          t <- sub_from matcher repl fuel' rest ;;
          ret (r ++ t)
      | None =>
          match s with
          | EmptyString => ret EmptyString
          | String c s' =>
              t <- sub_from matcher repl fuel' s' ;;
              ret (String c t)
          end
      end
  end.

Definition re_sub {T : Type} (matcher : string -> option (T * string))
           (repl : T -> M string) (s : string) : M string :=
  sub_from matcher repl (String.length s) s.

(** [<img src="image/{name}"{width_attr}{height_attr}>]. *)
Definition img_tag (name width_attr height_attr : string) : string :=
  "<img src=" ++ Str.dq ++ "image/" ++ name ++ Str.dq
    ++ width_attr ++ height_attr ++ ">".

Definition attr (key value : string) : string :=
  " " ++ key ++ "=" ++ Str.dq ++ value ++ Str.dq.

(** The width and height attributes for group 2 of an embed match. *)
Definition size_attrs (param : option string) : string * string :=
  match param with
  | Some prm =>
      let dims := Str.strip_char "|" prm in
      match match_dims dims with
      | Some (w, h) => (attr "width" w, attr "height" h)
      | None => ("", "")
      end
  | None => ("", "")
  end.

Definition repl_obsidian (cfg : config) (m : ematch) : M string :=
  let token := Str.strip (e_token m) in
  let param := e_param m in
  image_file <- _locate_image_by_token cfg token ;;
  match image_file with
  | None => print (NotFound token) ;;; ret (e_all m)
  | Some image_file =>
      copied <- _copy_image_to_image_dir cfg image_file ;;
      let (width_attr, height_attr) := size_attrs param in
      ret (img_tag (pname copied) width_attr height_attr)
  end.

Definition replace_md_img (cfg : config) (md_path : path) (m : smatch)
  : M string :=
  let raw_path := Str.strip (s_path m) in
  if Str.startswith "http://" raw_path || Str.startswith "https://" raw_path
     || Str.startswith "data:" raw_path
  then ret (s_all m)
  else if Str.startswith "image/" raw_path then ret (s_all m)
  else
    tree <- get_fs ;;
    let candidate := resolve_from (parent md_path) raw_path in
    image_file <-
      (if exists_ tree candidate && is_file tree candidate
       then ret (Some candidate)
       else _locate_image_by_token cfg (name_of raw_path)) ;;
    match image_file with
    | None => ret (s_all m)
    | Some image_file =>
        copied <- _copy_image_to_image_dir cfg image_file ;;
        ret (img_tag (pname copied) "" "")
    end.

(** The two passes of [_process_single_markdown] over the text. *)
Definition rewrite (cfg : config) (md_path : path) (content : string)
  : M string :=
  content1 <- re_sub match_embed (repl_obsidian cfg) content ;;
  re_sub match_std (replace_md_img cfg md_path) content1.

(** The matches [re.sub] visits in [s], from left to right, which
    are those [re.finditer] yields. *)
Fixpoint matches_from {T : Type} (matcher : string -> option (T * string))
         (fuel : nat) (s : string) : list T :=
  match fuel with
  | 0 => []
  | S fuel' =>
      match matcher s with
      | Some (m, rest) => m :: matches_from matcher fuel' rest
      | None =>
          match s with
          | EmptyString => []
          | String _ s' => matches_from matcher fuel' s'
          end
      end
  end.

Definition finditer {T : Type} (matcher : string -> option (T * string))
           (s : string) : list T :=
  matches_from matcher (String.length s) s.


(** The path begins with one of the prefixes [replace_md_img] leaves
    alone. *)
Definition guarded (raw_path : string) : bool :=
  Str.startswith "http://" raw_path || Str.startswith "https://" raw_path
  || Str.startswith "data:" raw_path || Str.startswith "image/" raw_path.


(** [p.relative_to(base)]. *)
Fixpoint relative_to (base p : path) : option path :=
  match base, p with
  | [], _ => Some p
  | b :: base', c :: p' => if b =? c then relative_to base' p' else None
  | _ :: _, [] => None
  end.

(** [p.read_text(encoding="utf-8")]: bytes that are not UTF-8 raise
    [UnicodeDecodeError], a [ValueError]; the line ends are
    translated. *)
Definition read_text (p : path) : M string :=
  tree <- get_fs ;;
  match stat tree p with
  | Some (File data) =>
      if Str.utf8_valid data then ret (Str.universal_newlines data)
      else raise ValueError
  | Some (Dir _) => raise IsADirectoryError
  | None => raise FileNotFoundError
  end.

(** [p.write_text(data, encoding="utf-8")]; on POSIX a line feed is
    written as it is. *)
Definition write_text (p : path) (data : string) : M unit :=
  tree <- get_fs ;;
  match walk tree [] p with
  | Some q =>
      match lookup tree q with
      | Some (Dir _) => raise IsADirectoryError
      | _ =>
          match put q (File data) tree with
          | Some tree' => set_fs tree'
          | None => raise FileNotFoundError
          end
      end
  | None => raise FileNotFoundError
  end.

Definition _process_single_markdown (cfg : config) (md_path : path)
  : M unit :=
  match relative_to (target_dir cfg) md_path with
  | None => raise ValueError
  | Some rel =>
      print (Processing rel) ;;;
      read <- try_except (c <- read_text md_path ;; ret (Some c))
                         (fun _ => print (ReadFailed rel) ;;; ret None) ;;
      match read with
      | None => ret tt
      | Some original_content =>
          content <- rewrite cfg md_path original_content ;;
          if content =? original_content then ret tt
          else try_except (write_text md_path content)
                          (fun _ => print (WriteFailed rel))
      end
  end.

End WithGlob.

End Sync.

(* ================================================================== *)
(** ** Clearing the output directory *)

Module Driver.
Import PathLib FS Sync.

(** What [_clear_target] prints. *)
Inductive banner : Type :=
| Clearing.    (* "🔄 清空 content 目录（包含 image 内容）..." *)

(** The [OSError]s of the system calls below, by [errno]:
    [FileNotFoundError], [NotADirectoryError], [IsADirectoryError],
    [FileExistsError], and the error of removing the root. *)
Inductive oserror : Type :=
| ENOENT
| ENOTDIR
| EISDIR
| EEXIST
| EBUSY.

Record sys : Type := { tree : node; lines : list banner }.

(** [Path.is_dir]. *)
Definition is_dir (root : node) (p : path) : bool :=
  match stat root p with Some (Dir _) => true | _ => false end.

(** The walk of the operating system, with the error of the component
    that cannot be taken. *)
Fixpoint resolve (root : node) (acc : path) (p : path) : oserror + path :=
  match p with
  | [] => inr acc
  | c :: p' =>
      match lookup root acc with
      | Some (Dir _) =>
          if c =? ".." then resolve root (removelast acc) p'
          else resolve root (acc ++ [c])%list p'
      | Some (File _) => inl ENOTDIR
      | None => inl ENOENT
      end
  end.

(** Drop the entry named [k]. *)
Fixpoint del_entry {A : Type} (k : string) (l : list (string * A))
  : list (string * A) :=
  match l with
  | [] => []
  | (k', v) :: l' => if k' =? k then l' else (k', v) :: del_entry k l'
  end.

(** Take the node at the path [p] (without [..]) out of its
    directory, with everything below it. *)
Fixpoint remove (p : path) (n : node) {struct p} : option node :=
  match p, n with
  | c :: p', Dir es =>
      match assoc c es with
      | Some ch =>
          match p' with
          | [] => Some (Dir (del_entry c es))
          | _ :: _ =>
              match remove p' ch with
              | Some ch' => Some (Dir (set_entry c ch' es))
              | None => None
              end
          end
      | None => None
      end
  | _, _ => None
  end.

(** [os.listdir(p)]. *)
Definition listdir (p : path) (root : node) : oserror + list string :=
  match resolve root [] p with
  | inl e => inl e
  | inr q =>
      match lookup root q with
      | Some (Dir es) => inr (map fst es)
      | Some (File _) => inl ENOTDIR
      | None => inl ENOENT
      end
  end.

(** [Path.unlink()], on Linux. *)
Definition unlink (p : path) (root : node) : oserror + node :=
  match resolve root [] p with
  | inl e => inl e
  | inr q =>
      match lookup root q with
      | Some (File _) =>
          match remove q root with
          | Some root' => inr root'
          | None => inl EBUSY
          end
      | Some (Dir _) => inl EISDIR
      | None => inl ENOENT
      end
  end.

(** [shutil.rmtree(p)]: the directory goes with everything below it. *)
Definition rmtree (p : path) (root : node) : oserror + node :=
  match resolve root [] p with
  | inl e => inl e
  | inr q =>
      match lookup root q with
      | Some (Dir _) =>
          match remove q root with
          | Some root' => inr root'
          | None => inl EBUSY
          end
      | Some (File _) => inl ENOTDIR
      | None => inl ENOENT
      end
  end.

(** [os.mkdir(p)]. *)
Definition os_mkdir (p : path) (root : node) : oserror + node :=
  match p with
  | [] => inl EEXIST
  | _ :: _ =>
      match resolve root [] (removelast p) with
      | inl e => inl e
      | inr q =>
          match lookup root q with
          | Some (Dir es) =>
              let c := last p "" in
              if c =? ".." then inl EEXIST
              else
                match assoc c es with
                | Some _ => inl EEXIST
                | None =>
                    match put (q ++ [c])%list (Dir []) root with
                    | Some root' => inr root'
                    | None => inl ENOENT
                    end
                end
          | Some (File _) => inl ENOTDIR
          | None => inl ENOENT
          end
      end
  end.

(** [p.mkdir(parents=False, exist_ok=exist_ok)]. *)
Definition mkdir_plain (exist_ok : bool) (p : path) (root : node)
  : oserror + node :=
  match os_mkdir p root with
  | inr root' => inr root'
  | inl ENOENT => inl ENOENT
  | inl e => if exist_ok && is_dir root p then inr root else inl e
  end.

(** [p.mkdir(parents=True, exist_ok=exist_ok)]; [n] bounds the calls
    on the parents. *)
Fixpoint mkdir_parents (n : nat) (exist_ok : bool) (p : path) (root : node)
  : oserror + node :=
  match os_mkdir p root with
  | inr root' => inr root'
  | inl ENOENT =>
      match n, p with
      | S n', _ :: _ =>
          match mkdir_parents n' true (removelast p) root with
          | inl e => inl e
          | inr root1 => mkdir_plain exist_ok p root1
          end
      | _, _ => inl ENOENT
      end
  | inl e => if exist_ok && is_dir root p then inr root else inl e
  end.

Definition mkdir (exist_ok : bool) (p : path) (root : node)
  : oserror + node :=
  mkdir_parents (List.length p) exist_ok p root.

(** The body of the loop of [_clear_target]. *)
Definition clear_item (root : node) (item : path) : oserror + node :=
  if is_dir root item then rmtree item root else unlink item root.

Fixpoint clear_items (items : list path) (root : node) : oserror + node :=
  match items with
  | [] => inr root
  | item :: rest =>
      match clear_item root item with
      | inl e => inl e
      | inr root' => clear_items rest root'
      end
  end.

(** [Path.iterdir] lists the directory once, before the first item. *)
Definition _clear_target (cfg : config) (s : sys) : oserror + sys :=
  let printed := (lines s ++ [Clearing])%list in
  match listdir (target_dir cfg) (tree s) with
  | inl e => inl e
  | inr names =>
      match clear_items (map (fun k => (target_dir cfg ++ [k])%list) names)
                        (tree s) with
      | inl e => inl e
      | inr root1 =>
          match mkdir true (image_dir cfg) root1 with
          | inl e => inl e
          | inr root2 => inr {| tree := root2; lines := printed |}
          end
      end
  end.

End Driver.

(* ================================================================== *)
(** ** Concrete inputs *)

Module Fixtures.
Import PathLib FS Eff Sync.

(** [fnmatch] for a pattern without [\]]: [*] stands for any run of
    characters, [?] for any one character, every other character for
    itself. *)
Fixpoint fnmatch_simple (pat name : string) {struct pat} : bool :=
  match pat with
  | EmptyString => name =? ""
  | String c pat' =>
      if Ascii.eqb c "*" then
        (fix star (n : string) : bool :=
           fnmatch_simple pat' n ||
           match n with
           | EmptyString => false
           | String _ n' => star n'
           end) name
      else
        match name with
        | EmptyString => false
        | String d name' =>
            (Ascii.eqb c "?" || Ascii.eqb c d) && fnmatch_simple pat' name'
        end
  end.

Definition cfg : config :=
  {| source_dir := ["vault"; "01-Post"];
     target_dir := ["content"];
     attachment_dir := ["vault"; "attachment"] |}.

Definition post : path := ["content"; "post.md"].

(** An attachment nested two directories deep; an empty output
    directory. *)
Definition tree_logo : node :=
  Dir [("vault", Dir [("attachment",
          Dir [("assets", Dir [("sub", Dir [("logo.png", File "LOGO")])])])]);
       ("content", Dir [("image", Dir []); ("post.md", File "")])].

(** The attachment root holds [weirdname.png] and nothing else. *)
Definition tree_weird : node :=
  Dir [("vault", Dir [("attachment", Dir [("weirdname.png", File "W")])]);
       ("content", Dir [("image", Dir []); ("post.md", File "")])].



(** Three pictures of one name in three attachment directories. *)
Definition tree_three : node :=
  Dir [("vault", Dir [("attachment",
          Dir [("a", Dir [("pic.png", File "ONE")]);
               ("b", Dir [("pic.png", File "TWO")]);
               ("c", Dir [("pic.png", File "THREE")])])]);
       ("content", Dir [("image", Dir [])])].

Definition start (tree : node) : world := {| fs := tree; out := [] |}.

(** The output directory already holds a [pic.png]. *)
Definition tree_taken : node :=
  Dir [("vault", Dir [("attachment",
          Dir [("b", Dir [("pic.png", File "TWO")])])]);
       ("content", Dir [("image", Dir [("pic.png", File "ONE")])])].

(** The match of [![x](https://example.com/a.png)]. *)
Definition url_match : Re.smatch :=
  {| Re.s_all := "![x](https://example.com/a.png)";
     Re.s_path := "https://example.com/a.png" |}.

(** The matches of [![[nope]]] and of [![x](nope.png)]. *)
Definition nope_embed : Re.ematch :=
  {| Re.e_all := "![[nope]]"; Re.e_token := "nope"; Re.e_param := None |}.

Definition nope_std : Re.smatch :=
  {| Re.s_all := "![x](nope.png)"; Re.s_path := "nope.png" |}.


(** The match of [![[logo|100x50]]]. *)
Definition sized_match : Re.ematch :=
  {| Re.e_all := "![[logo|100x50]]"; Re.e_token := "logo";
     Re.e_param := Some "|100x50" |}.

(** A directory of the attachment root is called like the picture it
    holds. *)
Definition tree_folder : node :=
  Dir [("vault", Dir [("attachment",
          Dir [("logo", Dir [("logo.png", File "LOGO")])])]);
       ("content", Dir [("image", Dir []); ("post.md", File "")])].

(** The nested attachment again, and a document with two embeds of
    it. *)
Definition tree_post : node :=
  Dir [("vault", Dir [("attachment",
          Dir [("assets", Dir [("sub", Dir [("logo.png", File "LOGO")])])])]);
       ("content", Dir [("image", Dir []);
                        ("post.md", File "![[logo]] ![[logo|100x50]]")])].


Definition done_match : Re.smatch :=
  {| Re.s_all := "![y](image/logo.png)"; Re.s_path := "image/logo.png" |}.

(** [tree_logo] after its picture has been copied. *)
Definition world_logo_copied : world :=
  {| fs := Dir [("vault", Dir [("attachment",
                  Dir [("assets",
                        Dir [("sub", Dir [("logo.png", File "LOGO")])])])]);
                ("content",
                 Dir [("image", Dir [("logo.png", File "LOGO")]);
                      ("post.md", File "")])];
     out := [Copied "logo.png" "logo.png"] |}.

(** No attachment directory at all. *)
Definition tree_bare : node :=
  Dir [("content", Dir [("image", Dir []); ("post.md", File "")])].

Definition logo_src : path :=
  ["vault"; "attachment"; "assets"; "sub"; "logo.png"].

Definition pic (d : string) : path := ["vault"; "attachment"; d; "pic.png"].

(** An output directory with the results of an earlier run. *)
Definition tree_stale : node :=
  Dir [("vault", Dir [("attachment", Dir [("logo.png", File "LOGO")])]);
       ("content",
        Dir [("image", Dir [("old.png", File "OLD")]);
             ("post.md", File "text");
             ("notes", Dir [("a.md", File "A"); ("deep", Dir [])])])].

Definition tree_cleared : node :=
  Dir [("vault", Dir [("attachment", Dir [("logo.png", File "LOGO")])]);
       ("content", Dir [("image", Dir [])])].

(** A document with carriage returns before its line feeds, and one
    in ISO 8859-1 whose first byte is no UTF-8. *)
Definition tree_crlf_text : string :=
  "a" ++ String "013" (String "010" "![[logo]]")
      ++ String "013" (String "010" "b") ++ String "013" EmptyString.

Definition tree_crlf : node :=
  Dir [("vault", Dir [("attachment", Dir [("logo.png", File "LOGO")])]);
       ("content", Dir [("image", Dir []);
                        ("post.md", File tree_crlf_text)])].

Definition tree_latin1 : node :=
  Dir [("vault", Dir [("attachment", Dir [("logo.png", File "LOGO")])]);
       ("content",
        Dir [("image", Dir []);
             ("post.md", File (String (ascii_of_nat 233) "![[logo]]"))])].

End Fixtures.

(* ================================================================== *)
(** ** Facts about strings *)

Module StrFacts.
Import Str.

Lemma append_nil_r (s : string) : s ++ "" = s.
Proof. induction s; simpl; congruence. Qed.

Lemma append_assoc (a b c : string) : (a ++ b) ++ c = a ++ (b ++ c).
Proof. induction a; simpl; congruence. Qed.

Lemma length_append (a b : string) :
  String.length (a ++ b) = String.length a + String.length b.
Proof. induction a; simpl; congruence. Qed.

Lemma append_inv_head (a b c : string) : a ++ b = a ++ c -> b = c.
Proof. induction a; simpl; intros H; [assumption | injection H; auto]. Qed.

Lemma append_inv_tail (a b c : string) : a ++ c = b ++ c -> a = b.
Proof.
  revert b; induction a as [|x a IH]; intros [|y b] H; simpl in *.
  - reflexivity.
  - apply (f_equal String.length) in H. simpl in H.
    rewrite length_append in H. lia.
  - apply (f_equal String.length) in H. simpl in H.
    rewrite length_append in H. lia.
  - injection H as -> H. f_equal. auto.
Qed.

Lemma drop_prefix_sound (p s r : string) :
  drop_prefix p s = Some r -> s = p ++ r.
Proof.
  revert s; induction p as [|a p IH]; intros s H; simpl in *.
  - congruence.
  - destruct s as [|b s]; [discriminate|].
    destruct (Ascii.eqb_spec a b); [|discriminate].
    subst. f_equal. auto.
Qed.

Lemma drop_prefix_app (p r : string) : drop_prefix p (p ++ r) = Some r.
Proof.
  induction p as [|a p IH]; simpl; [reflexivity|].
  rewrite Ascii.eqb_refl. assumption.
Qed.

Lemma span_sound (p : ascii -> bool) (s a b : string) :
  span p s = (a, b) -> s = a ++ b.
Proof.
  revert a b; induction s as [|c s IH]; intros a b H; simpl in *.
  - injection H as <- <-. reflexivity.
  - destruct (p c).
    + destruct (span p s) as [a' b'] eqn:E. injection H as <- <-.
      simpl. f_equal. auto.
    + injection H as <- <-. reflexivity.
Qed.

Lemma span_all (p : ascii -> bool) (s a b : string) :
  span p s = (a, b) -> all p a = true.
Proof.
  revert a b; induction s as [|c s IH]; intros a b H; simpl in *.
  - injection H as <- <-. reflexivity.
  - destruct (p c) eqn:Ec.
    + destruct (span p s) as [a' b'] eqn:E. injection H as <- <-.
      simpl. rewrite Ec. eauto.
    + injection H as <- <-. reflexivity.
Qed.

Lemma span_stops (p : ascii -> bool) (s a b : string) :
  span p s = (a, b) -> stops p b.
Proof.
  revert a b; induction s as [|c s IH]; intros a b H; simpl in *.
  - injection H as <- <-. exact I.
  - destruct (p c) eqn:Ec.
    + destruct (span p s) as [a' b'] eqn:E. injection H as <- <-. eauto.
    + injection H as <- <-. exact Ec.
Qed.

Lemma span_app (p : ascii -> bool) (a b : string) :
  all p a = true -> stops p b -> span p (a ++ b) = (a, b).
Proof.
  intros Ha Hb. induction a as [|c a IH]; simpl in *.
  - destruct b as [|d b]; simpl in *; [reflexivity | now rewrite Hb].
  - apply andb_prop in Ha as [Hc Ha]. rewrite Hc, IH by assumption.
    reflexivity.
Qed.


(** *** [strip] *)





(** A prefix without strippable characters survives [strip]. *)
Lemma lstrip_keep (p : ascii -> bool) (c : ascii) (s : string) :
  p c = false -> lstrip_by p (String c s) = String c s.
Proof. intros H. simpl. now rewrite H. Qed.

Lemma rstrip_keep (p : ascii -> bool) (a s : string) :
  all (fun c => negb (p c)) a = true ->
  rstrip_by p (a ++ s) = a ++ rstrip_by p s.
Proof.
  induction a as [|c a IH]; simpl; intros H; [reflexivity|].
  apply andb_prop in H as [Hc H]. rewrite IH by assumption.
  destruct (a ++ rstrip_by p s) eqn:E; [|reflexivity].
  apply negb_true_iff in Hc. now rewrite Hc.
Qed.

Lemma prefix_app (a s : string) : String.prefix a (a ++ s) = true.
Proof.
  induction a as [|c a IH]; simpl.
  - now destruct s.
  - destruct (ascii_dec c c); [assumption | congruence].
Qed.

Lemma startswith_strip (a s : string) :
  a <> "" -> all (fun c => negb (isspace c)) a = true ->
  startswith a (strip (a ++ s)) = true.
Proof.
  intros Hne Ha. unfold strip, strip_by, startswith.
  destruct a as [|c a]; [congruence|]. simpl in Ha.
  pose proof Ha as Ha'. apply andb_prop in Ha' as [Hc _].
  apply negb_true_iff in Hc.
  change (String c a ++ s) with (String c (a ++ s)).
  rewrite lstrip_keep by assumption.
  change (String c (a ++ s)) with (String c a ++ s).
  rewrite rstrip_keep by exact Ha. apply prefix_app.
Qed.

End StrFacts.

(* ================================================================== *)
(** ** Facts about the file system *)

Module FSFacts.
Import PathLib FS.

Lemma assoc_set_entry_same {A : Type} (k : string) (v : A) l :
  assoc k (set_entry k v l) = Some v.
Proof.
  induction l as [|[k' v'] l IH]; simpl.
  - now rewrite String.eqb_refl.
  - destruct (String.eqb_spec k' k) as [->|N]; simpl.
    + now rewrite String.eqb_refl.
    + destruct (String.eqb_spec k' k); [contradiction | assumption].
Qed.

Lemma assoc_set_entry_other {A : Type} (k k0 : string) (v : A) l :
  k <> k0 -> assoc k0 (set_entry k v l) = assoc k0 l.
Proof.
  intros N. induction l as [|[k' v'] l IH]; simpl.
  - destruct (String.eqb_spec k k0); [contradiction | reflexivity].
  - destruct (String.eqb_spec k' k) as [->|N']; simpl.
    + destruct (String.eqb_spec k k0); [contradiction | reflexivity].
    + destruct (String.eqb_spec k' k0); [reflexivity | assumption].
Qed.

Lemma set_entry_fresh {A : Type} (k : string) (v : A) l :
  assoc k l = None -> set_entry k v l = (l ++ [(k, v)])%list.
Proof.
  induction l as [|[k' v'] l IH]; simpl; intros H; [reflexivity|].
  destruct (String.eqb_spec k' k); [discriminate|]. f_equal. auto.
Qed.

Lemma assoc_In {A : Type} (k : string) (v : A) l :
  assoc k l = Some v -> In (k, v) l.
Proof.
  induction l as [|[k' v'] l IH]; simpl; intros H; [discriminate|].
  destruct (String.eqb_spec k' k) as [->|N].
  - injection H as ->. now left.
  - right. auto.
Qed.

Lemma assoc_None_iff {A : Type} (k : string) (l : list (string * A)) :
  assoc k l = None <-> ~ In k (map fst l).
Proof.
  induction l as [|[k' v'] l IH]; simpl.
  - tauto.
  - destruct (String.eqb_spec k' k) as [->|N].
    + split; [discriminate | intros H; exfalso; apply H; now left].
    + rewrite IH. tauto.
Qed.

Lemma existsb_eqb_In (k : string) (l : list string) :
  existsb (String.eqb k) l = true <-> In k l.
Proof.
  rewrite existsb_exists. split.
  - intros [x [H E]]. apply String.eqb_eq in E. now subst.
  - intros H. exists k. split; [assumption | apply String.eqb_refl].
Qed.

Lemma nodupb_NoDup (l : list string) : nodupb l = true -> NoDup l.
Proof.
  induction l as [|k l IH]; simpl; intros H; constructor.
  - apply andb_prop in H as [H _]. apply negb_true_iff in H.
    intros HIn. apply existsb_eqb_In in HIn. congruence.
  - apply andb_prop in H as [_ H]. auto.
Qed.

Lemma In_assoc {A : Type} (k : string) (v : A) l :
  NoDup (map fst l) -> In (k, v) l -> assoc k l = Some v.
Proof.
  induction l as [|[k' v'] l IH]; simpl; intros ND H; [contradiction|].
  inversion ND as [|? ? Hk ND']; subst.
  destruct H as [E|H].
  - injection E as -> ->. now rewrite String.eqb_refl.
  - destruct (String.eqb_spec k' k) as [->|N]; [|auto].
    exfalso. apply Hk. change k with (fst (k, v)). now apply in_map.
Qed.

Lemma lookup_app (n : node) (a b : path) :
  lookup n (a ++ b)%list =
  match lookup n a with Some x => lookup x b | None => None end.
Proof.
  revert n; induction a as [|c a IH]; intros n; simpl; [reflexivity|].
  destruct n as [|es]; [reflexivity|].
  destruct (assoc c es); [apply IH | reflexivity].
Qed.

(** Without [..] the walk of the operating system is plain descent. *)
Lemma walk_clean (root : node) (p acc : path) :
  ~ In ".." p ->
  match walk root acc p with
  | Some q => lookup root q
  | None => None
  end = lookup root (acc ++ p)%list.
Proof.
  revert acc; induction p as [|c p IH]; intros acc H; simpl.
  - now rewrite app_nil_r.
  - assert (Hc : c <> "..") by (intros ->; apply H; now left).
    assert (Hp : ~ In ".." p) by (intros X; apply H; now right).
    rewrite lookup_app.
    destruct (lookup root acc) as [[d|es]|] eqn:E; [reflexivity| |reflexivity].
    destruct (String.eqb_spec c ".."); [contradiction|].
    rewrite IH by assumption. rewrite <- app_assoc. simpl.
    now rewrite lookup_app, E.
Qed.

Lemma stat_clean (root : node) (p : path) :
  ~ In ".." p -> stat root p = lookup root p.
Proof. intros H. unfold stat. now rewrite (walk_clean root p []). Qed.

Lemma walk_clean_some (root : node) (p acc : path) :
  ~ In ".." p -> p <> [] ->
  (exists es, lookup root (removelast (acc ++ p)) = Some (Dir es)) ->
  walk root acc p = Some (acc ++ p)%list.
Proof.
  revert acc; induction p as [|c p IH]; intros acc H Hne [es Hes];
    [congruence|].
  simpl.
  assert (Hc : c <> "..") by (intros ->; apply H; now left).
  assert (Hp : ~ In ".." p) by (intros X; apply H; now right).
  destruct (String.eqb_spec c ".."); [contradiction|].
  destruct p as [|c' p].
  - rewrite removelast_last in Hes. rewrite Hes. reflexivity.
  - assert (E : (acc ++ c :: c' :: p = (acc ++ [c]) ++ c' :: p)%list)
      by now rewrite <- app_assoc.
    rewrite E in Hes |- *.
    rewrite <- (IH (acc ++ [c])%list); try assumption; try discriminate;
      eauto.
    assert (Hd : exists es', lookup root acc = Some (Dir es')).
    { rewrite removelast_app in Hes by discriminate.
      rewrite lookup_app in Hes. rewrite lookup_app in Hes.
      destruct (lookup root acc) as [[d|es']|]; simpl in Hes;
        try discriminate; eauto. }
    destruct Hd as [es' ->]. reflexivity.
Qed.

(** Storing a node at a fresh path under an existing directory. *)
Lemma put_fresh (d : path) (x : node) :
  forall (root : node) (es : list (string * node)),
    d <> [] ->
    lookup root (removelast d) = Some (Dir es) ->
    lookup root d = None ->
    exists root',
      put d x root = Some root'
      /\ lookup root' (removelast d) = Some (Dir (es ++ [(last d "", x)]))
      /\ (forall q data, lookup root q = Some (File data) ->
                         lookup root' q = Some (File data))
      /\ (forall q es1, lookup root q = Some (Dir es1) ->
                        exists es2, lookup root' q = Some (Dir es2)).
Proof.
  induction d as [|c d IH]; intros root es Hne Hpar Hfresh; [congruence|].
  destruct d as [|c' d].
  - simpl in Hpar. injection Hpar as ->. simpl in Hfresh.
    destruct (assoc c es) as [ch|] eqn:E; [discriminate|].
    exists (Dir (set_entry c x es)). simpl. rewrite E.
    repeat split.
    + now rewrite set_entry_fresh.
    + intros [|k q] data H; simpl in *; [discriminate|].
      destruct (String.eqb_spec c k) as [->|N].
      * now rewrite E in H.
      * now rewrite assoc_set_entry_other.
    + intros [|k q] es1 H; simpl in *; [eauto|].
      destruct (String.eqb_spec c k) as [->|N].
      * now rewrite E in H.
      * rewrite assoc_set_entry_other by assumption. eauto.
  - change (removelast (c :: c' :: d)) with (c :: removelast (c' :: d))
      in Hpar |- *.
    change (last (c :: c' :: d) "") with (last (c' :: d) "").
    destruct root as [data|es0]; [discriminate|].
    simpl in Hpar, Hfresh.
    destruct (assoc c es0) as [ch|] eqn:E; [|discriminate].
    destruct (IH ch es ltac:(discriminate) Hpar Hfresh)
      as [ch' [Hput [Hp [Hf Hd]]]].
    exists (Dir (set_entry c ch' es0)).
    change (put (c :: c' :: d) x (Dir es0)) with
      (match (match assoc c es0 with
              | Some ch => put (c' :: d) x ch
              | None => None
              end) with
       | Some ch => Some (Dir (set_entry c ch es0))
       | None => None
       end).
    rewrite E, Hput. repeat split.
    + simpl. now rewrite assoc_set_entry_same.
    + intros [|k q] data H; simpl in *; [discriminate|].
      destruct (String.eqb_spec c k) as [->|N].
      * rewrite assoc_set_entry_same. rewrite E in H. auto.
      * now rewrite assoc_set_entry_other.
    + intros [|k q] es1 H; simpl in *; [eauto|].
      destruct (String.eqb_spec c k) as [->|N].
      * rewrite assoc_set_entry_same. rewrite E in H. eauto.
      * rewrite assoc_set_entry_other by assumption. eauto.
Qed.

Lemma walk_mono (root root' : node) (p acc q : path) :
  (forall q es1, lookup root q = Some (Dir es1) ->
                 exists es2, lookup root' q = Some (Dir es2)) ->
  walk root acc p = Some q -> walk root' acc p = Some q.
Proof.
  intros Hd. revert acc; induction p as [|c p IH]; intros acc H; simpl in *;
    [assumption|].
  destruct (lookup root acc) as [[data|es]|] eqn:E; try discriminate.
  destruct (Hd _ _ E) as [es2 ->].
  destruct (c =? ".."); auto.
Qed.

Lemma last_app_single {A : Type} (l : list A) (x d : A) :
  last (l ++ [x]) d = x.
Proof. apply last_last. Qed.

End FSFacts.

(* ================================================================== *)
(** ** The collision-free copy *)

Module CopyFacts.
Import PathLib FS Eff Shutil Sync StrFacts FSFacts.

Lemma of_nat_inj (a b : nat) : Str.of_nat a = Str.of_nat b -> a = b.
Proof.
  unfold Str.of_nat. intros H.
  apply DecimalNat.Unsigned.to_uint_inj.
  assert (E : Some (Nat.to_uint a) = Some (Nat.to_uint b))
    by now rewrite <- !NilEmpty.usu, H.
  now injection E.
Qed.

Lemma numbered_inj (name : string) (a b : nat) :
  numbered name a = numbered name b -> a = b.
Proof.
  unfold numbered. intros H.
  apply append_inv_head in H. apply append_inv_head in H.
  apply append_inv_tail in H. now apply of_nat_inj.
Qed.

Lemma contains_app (c : ascii) (a b : string) :
  Str.contains c (a ++ b) = Str.contains c a || Str.contains c b.
Proof.
  induction a as [|x a IH]; simpl; [reflexivity|].
  now rewrite IH, orb_assoc.
Qed.

Lemma numbered_underscore (name : string) (k : nat) :
  Str.contains "_" (numbered name k) = true.
Proof.
  unfold numbered. rewrite contains_app. simpl. apply orb_true_r.
Qed.

Lemma numbered_not_empty (name : string) (k : nat) : numbered name k <> "".
Proof.
  intros E. pose proof (numbered_underscore name k) as H.
  rewrite E in H. discriminate.
Qed.

Lemma numbered_not_dotdot (name : string) (k : nat) :
  numbered name k <> "..".
Proof.
  intros E. pose proof (numbered_underscore name k) as H.
  rewrite E in H. discriminate.
Qed.

Lemma pjoin_nonempty (p : path) (x : string) :
  x <> "" -> pjoin p x = (p ++ [x])%list.
Proof.
  intros H. unfold pjoin. destruct (String.eqb_spec x ""); congruence.
Qed.

Lemma not_in_app_single (p : path) (x : string) :
  ~ In ".." p -> x <> ".." -> ~ In ".." (p ++ [x])%list.
Proof.
  intros Hp Hx H. apply in_app_or in H as [H|[H|[]]]; auto.
Qed.

(** An entry of a directory exists exactly when the directory lists
    its name. *)
Lemma exists_entry (tree : node) (dir : path) es (k : string) :
  ~ In ".." dir -> lookup tree dir = Some (Dir es) ->
  k <> "" -> k <> ".." ->
  stat tree (pjoin dir k) = assoc k es.
Proof.
  intros Hd Hl Hk Hk'. rewrite pjoin_nonempty by assumption.
  rewrite stat_clean by now apply not_in_app_single.
  rewrite lookup_app, Hl. simpl. now destruct (assoc k es).
Qed.

Section Probe.
Variables (tree : node) (dir : path) (es : list (string * node)).
Variable name : string.
Hypothesis Hclean : ~ In ".." dir.
Hypothesis Hdir : lookup tree dir = Some (Dir es).

Local Abbreviation alt k := (pjoin dir (numbered name k)).

Lemma exists_alt (k : nat) :
  exists_ tree (alt k) = true <-> In (numbered name k) (map fst es).
Proof.
  unfold exists_.
  rewrite (exists_entry tree dir es)
    by auto using numbered_not_empty, numbered_not_dotdot.
  pose proof (assoc_None_iff (numbered name k) es) as H.
  destruct (assoc (numbered name k) es) as [x|].
  - split; [intros _|reflexivity].
    destruct (in_dec string_dec (numbered name k) (map fst es))
      as [Hin|Hout]; [assumption|]. apply H in Hout. discriminate.
  - split; [discriminate|]. intros HIn. exfalso. now apply (proj1 H).
Qed.

(** Among any [length es + 1] consecutive numbers one is unused. *)
Lemma unused_number (lo : nat) :
  exists k, lo <= k < lo + S (List.length es)
            /\ exists_ tree (alt k) = false.
Proof.
  set (ks := seq lo (S (List.length es))).
  destruct (Forall_Exists_dec
              (fun k => exists_ tree (alt k) = true)
              (fun k => bool_dec (exists_ tree (alt k)) true) ks)
    as [Hall|Hex].
  - exfalso.
    assert (Hincl : incl (map (numbered name) ks) (map fst es)).
    { intros x Hx. apply in_map_iff in Hx as [k [<- Hk]].
      apply exists_alt. rewrite Forall_forall in Hall. auto. }
    assert (Hnd : NoDup (map (numbered name) ks)).
    { apply Injective_map_NoDup.
      - intros a b. apply numbered_inj.
      - apply seq_NoDup. }
    pose proof (NoDup_incl_length Hnd Hincl) as Hlen.
    rewrite !length_map in Hlen. unfold ks in Hlen.
    rewrite length_seq in Hlen. lia.
  - apply Exists_exists in Hex as [k [Hk Hn]].
    exists k. split.
    + apply in_seq in Hk. lia.
    + now destruct (exists_ tree (alt k)).
Qed.

Lemma probe_step (fuel idx : nat) :
  probe tree dir (stem name) (suffix name) (S fuel) idx =
  if exists_ tree (alt idx)
  then probe tree dir (stem name) (suffix name) fuel (S idx)
  else Some (alt idx).
Proof. reflexivity. Qed.

Lemma probe_spec (fuel idx : nat) :
  (exists k, idx <= k < idx + fuel /\ exists_ tree (alt k) = false) ->
  exists k,
    probe tree dir (stem name) (suffix name) fuel idx = Some (alt k)
    /\ idx <= k
    /\ exists_ tree (alt k) = false
    /\ forall j, idx <= j < k -> exists_ tree (alt j) = true.
Proof.
  revert idx; induction fuel as [|fuel IH]; intros idx [k [Hk Hf]];
    [lia|].
  rewrite probe_step.
  destruct (exists_ tree (alt idx)) eqn:E.
  - destruct (IH (S idx)) as [k' [Hp [Hle [Hf' Hall]]]].
    { exists k. split; [|assumption].
      destruct (Nat.eq_dec k idx) as [->|]; [congruence | lia]. }
    exists k'. split; [assumption|]. split; [lia|]. split; [assumption|].
    intros j Hj. destruct (Nat.eq_dec j idx) as [->|]; [assumption|].
    apply Hall. lia.
  - exists idx. split; [reflexivity|]. split; [lia|].
    split; [assumption|]. intros j Hj. lia.
Qed.

End Probe.

Ltac run := unfold bind, ret, get_fs, set_fs, print, raise; simpl.

Lemma lookup_parent (tree : node) (p : path) (c : string) (x : node) :
  lookup tree (p ++ [c])%list = Some x ->
  exists es, lookup tree p = Some (Dir es).
Proof.
  rewrite lookup_app. destruct (lookup tree p) as [[d|es]|]; simpl;
    try discriminate. eauto.
Qed.

(** [dir / ".."] exists as soon as [dir] is a directory. *)
Lemma exists_dotdot (tree : node) (dir : path) es :
  ~ In ".." dir -> lookup tree dir = Some (Dir es) ->
  exists_ tree (dir ++ [".."])%list = true.
Proof.
  intros Hc Hl. unfold exists_, stat.
  assert (Hw : forall acc a,
             ~ In ".." a ->
             lookup tree (acc ++ a)%list = Some (Dir es) ->
             walk tree acc (a ++ [".."])%list
             = Some (removelast (acc ++ a)%list)).
  { intros acc a; revert acc.
    induction a as [|c a IH]; intros acc Ha H; simpl.
    - rewrite app_nil_r in H |- *. now rewrite H.
    - assert (E : (acc ++ c :: a = (acc ++ [c]) ++ a)%list)
        by now rewrite <- app_assoc.
      rewrite E in H |- *.
      assert (Hp : exists e, lookup tree acc = Some (Dir e)).
      { rewrite lookup_app in H. rewrite lookup_app in H.
        destruct (lookup tree acc) as [[d|e]|]; simpl in H;
          try discriminate; eauto. }
      destruct Hp as [e ->].
      destruct (String.eqb_spec c "..") as [->|_];
        [exfalso; apply Ha; now left|].
      apply IH; [intros X; apply Ha; now right | assumption]. }
  rewrite (Hw [] dir Hc Hl). simpl.
  destruct dir as [|c dir] using rev_ind.
  - reflexivity.
  - rewrite removelast_last.
    destruct (lookup_parent _ _ _ _ Hl) as [e ->]. reflexivity.
Qed.

Lemma walk_app (tree : node) (a b acc : path) :
  walk tree acc (a ++ b)%list =
  match walk tree acc a with
  | Some q => walk tree q b
  | None => None
  end.
Proof.
  revert acc; induction a as [|c a IH]; intros acc; simpl; [reflexivity|].
  destruct (lookup tree acc) as [[d|es]|]; try reflexivity.
  destruct (c =? ".."); apply IH.
Qed.

Lemma lookup_removelast (tree : node) (p : path) (x : node) :
  lookup tree p = Some x ->
  p = [] \/ exists es, lookup tree (removelast p) = Some (Dir es).
Proof.
  destruct p as [|c p] using rev_ind; [now left|].
  intros H. right. rewrite removelast_last. eapply lookup_parent; eauto.
Qed.

(** What [..] leads to is a directory, so a regular file is never
    named [..]. *)
Lemma file_not_dotdot (tree : node) (src : path) (data : string) :
  stat tree src = Some (File data) -> pname src <> "..".
Proof.
  intros H E. unfold pname in E.
  destruct src as [|c src] using rev_ind; [discriminate|].
  rewrite last_last in E. subst c. clear IHsrc.
  unfold stat in H. rewrite walk_app in H.
  destruct (walk tree [] src) as [q|]; [|discriminate].
  simpl in H. destruct (lookup tree q) as [[d|es]|] eqn:Eq;
    try discriminate.
  simpl in H. destruct (lookup_removelast _ _ _ Eq) as [->|[es' Hes]].
  - simpl in H, Eq. congruence.
  - rewrite Hes in H. discriminate.
Qed.

Lemma copy2_fresh (w : world) (src : path) (data : string)
      (dir : path) es (k : string) :
  ~ In ".." dir -> lookup (fs w) dir = Some (Dir es) ->
  k <> "" -> k <> ".." -> assoc k es = None ->
  stat (fs w) src = Some (File data) ->
  exists tree',
    copy2 src (pjoin dir k) w = Ok tt {| fs := tree'; out := out w |}
    /\ lookup tree' dir = Some (Dir (es ++ [(k, File data)]))
    /\ (forall q d, lookup (fs w) q = Some (File d) ->
                    lookup tree' q = Some (File d))
    /\ (forall q e1, lookup (fs w) q = Some (Dir e1) ->
                     exists e2, lookup tree' q = Some (Dir e2)).
Proof.
  intros Hc Hl Hk Hk' Hfresh Hsrc.
  assert (Hdst : stat (fs w) (pjoin dir k) = None)
    by (rewrite (exists_entry _ _ es); assumption).
  rewrite pjoin_nonempty in * by assumption.
  assert (Hnone : lookup (fs w) (dir ++ [k])%list = None)
    by (rewrite lookup_app, Hl; simpl; now rewrite Hfresh).
  unfold stat in Hsrc.
  destruct (walk (fs w) [] src) as [s|] eqn:Ews; [|discriminate].
  assert (Ewd : walk (fs w) [] (dir ++ [k])%list = Some (dir ++ [k])%list).
  { apply (walk_clean_some (fs w) (dir ++ [k])%list []).
    - now apply not_in_app_single.
    - now destruct dir.
    - simpl. rewrite removelast_last. eauto. }
  destruct (put_fresh (dir ++ [k])%list (File data) (fs w) es)
    as [tree' [Hput [Hd [Hf Hdirs]]]].
  { now destruct dir. }
  { now rewrite removelast_last. }
  { assumption. }
  rewrite removelast_last, last_last in Hd.
  exists tree'. split; [|auto].
  unfold copy2. run. rewrite Hdst.
  unfold copyfile, bind, get_fs, set_fs, raise, stat. cbv beta iota zeta.
  rewrite Ews, Ewd.
  destruct (list_eq_dec string_dec s (dir ++ [k])%list) as [->|_];
    [congruence|].
  rewrite Hsrc, Hnone, Hput. reflexivity.
Qed.

Lemma frame_stat (tree tree' : node) :
  (forall q d, lookup tree q = Some (File d) ->
               lookup tree' q = Some (File d)) ->
  (forall q e1, lookup tree q = Some (Dir e1) ->
                exists e2, lookup tree' q = Some (Dir e2)) ->
  extends tree tree'.
Proof.
  intros Hf Hd p d. unfold stat.
  destruct (walk tree [] p) as [q|] eqn:E; [|discriminate].
  rewrite (walk_mono tree tree' p [] q Hd E). apply Hf.
Qed.

Lemma assoc_snoc_fresh {A : Type} (k : string) (v : A) l :
  assoc k l = None -> assoc k (l ++ [(k, v)]) = Some v.
Proof.
  induction l as [|[k' v'] l IH]; simpl; intros H.
  - now rewrite String.eqb_refl.
  - destruct (k' =? k); [discriminate | auto].
Qed.

(** The new entry of a directory, seen from the root. *)
Lemma stat_new_entry (tree : node) (dir : path) es (k : string) (x : node) :
  ~ In ".." dir -> k <> "" -> k <> ".." -> assoc k es = None ->
  lookup tree dir = Some (Dir (es ++ [(k, x)])) ->
  stat tree (dir ++ [k])%list = Some x.
Proof.
  intros Hc Hk Hk' Hn Hl.
  rewrite <- (pjoin_nonempty dir k Hk).
  rewrite (exists_entry tree dir _ k Hc Hl Hk Hk').
  now apply assoc_snoc_fresh.
Qed.

Section Copy.
Variable cfg : config.
Hypothesis Hclean : ~ In ".." (target_dir cfg).

Lemma image_dir_clean : ~ In ".." (image_dir cfg).
Proof.
  unfold image_dir. apply not_in_app_single; [assumption | discriminate].
Qed.

Lemma copy2_not_exhausted (a b : path) (w0 : world) :
  copy2 a b w0 <> Raise LoopExhausted.
Proof.
  unfold copy2, copyfile, bind, get_fs, set_fs, raise. cbv beta iota.
  repeat match goal with
         | |- context [match ?x with _ => _ end] => destruct x
         end; discriminate.
Qed.

(** The probing loop always finds a name: the copy never runs out
    of fuel. *)
Lemma copy_terminates (src0 : path) (w0 : world) :
  _copy_image_to_image_dir cfg src0 w0 <> Raise LoopExhausted.
Proof.
  pose proof image_dir_clean as Hc.
  unfold _copy_image_to_image_dir, bind, get_fs, print, ret, raise.
  cbv beta iota.
  set (dst := pjoin (image_dir cfg) (pname src0)).
  destruct (negb (exists_ (fs w0) dst)).
  - pose proof (copy2_not_exhausted src0 dst w0) as N.
    destruct (copy2 src0 dst w0) as [[] w1|e]; congruence.
  - set (name := pname dst).
    assert (P : exists alt,
               probe (fs w0) (image_dir cfg) (stem name) (suffix name)
                     (probe_fuel (fs w0) (image_dir cfg)) 1 = Some alt).
    { unfold probe_fuel. rewrite stat_clean by assumption.
      destruct (lookup (fs w0) (image_dir cfg)) as [[d|es0]|] eqn:E.
      - rewrite probe_step.
        replace (exists_ (fs w0) (pjoin (image_dir cfg) (numbered name 1)))
          with false; [eauto|].
        unfold exists_.
        rewrite pjoin_nonempty by apply numbered_not_empty.
        rewrite stat_clean
          by (apply not_in_app_single;
              [assumption | apply numbered_not_dotdot]).
        now rewrite lookup_app, E.
      - destruct (unused_number (fs w0) (image_dir cfg) es0 name Hc E 1)
          as [k0 Hk0].
        destruct (probe_spec (fs w0) (image_dir cfg) name
                             (S (List.length es0)) 1)
          as [k [Hp _]]; eauto.
      - rewrite probe_step.
        replace (exists_ (fs w0) (pjoin (image_dir cfg) (numbered name 1)))
          with false; [eauto|].
        unfold exists_.
        rewrite pjoin_nonempty by apply numbered_not_empty.
        rewrite stat_clean
          by (apply not_in_app_single;
              [assumption | apply numbered_not_dotdot]).
        now rewrite lookup_app, E. }
    destruct P as [alt ->].
    pose proof (copy2_not_exhausted src0 alt w0) as N.
    destruct (copy2 src0 alt w0) as [[] w1|e]; congruence.
Qed.

Variables (w : world) (es : list (string * node)).
Variables (src : path) (data : string).
Hypothesis Hdir : lookup (fs w) (image_dir cfg) = Some (Dir es).
Hypothesis Hsrc : stat (fs w) src = Some (File data).

(** The base name is free: the file goes there. *)
Lemma copy_fresh :
  exists_ (fs w) (pjoin (image_dir cfg) (pname src)) = false ->
  exists tree',
    _copy_image_to_image_dir cfg src w
    = Ok (image_dir cfg ++ [pname src])%list
         {| fs := tree';
            out := (out w ++ [Copied (pname src) (pname src)])%list |}
    /\ assoc (pname src) es = None
    /\ lookup tree' (image_dir cfg)
       = Some (Dir (es ++ [(pname src, File data)]))
    /\ stat tree' src = Some (File data)
    /\ extends (fs w) tree'.
Proof.
  intros Hfree. pose proof image_dir_clean as Hc.
  assert (Hne : pname src <> "").
  { intros E. unfold pjoin in Hfree. rewrite E in Hfree. simpl in Hfree.
    unfold exists_ in Hfree. rewrite stat_clean, Hdir in Hfree by assumption.
    discriminate. }
  assert (Hnd : pname src <> "..").
  { intros E. rewrite pjoin_nonempty, E in Hfree by assumption.
    rewrite (exists_dotdot _ _ es) in Hfree by assumption. discriminate. }
  assert (Hnone : assoc (pname src) es = None).
  { unfold exists_ in Hfree.
    rewrite (exists_entry _ _ es) in Hfree by assumption.
    now destruct (assoc (pname src) es). }
  destruct (copy2_fresh w src data (image_dir cfg) es (pname src))
    as [tree' [Hcp [Hd [Hf Hdirs]]]]; try assumption.
  pose proof (frame_stat _ _ Hf Hdirs) as Hext.
  exists tree'. split; [|auto].
  unfold _copy_image_to_image_dir. run. rewrite Hfree. simpl.
  run. rewrite Hcp. rewrite pjoin_nonempty by assumption.
  unfold pname at 3. now rewrite last_last.
Qed.

(** The base name is taken: the file goes to the first unused
    numbered name, and nothing that was there is touched. *)
Lemma copy_taken :
  pname src <> "" ->
  exists_ (fs w) (pjoin (image_dir cfg) (pname src)) = true ->
  exists k tree',
    1 <= k
    /\ _copy_image_to_image_dir cfg src w
       = Ok (image_dir cfg ++ [numbered (pname src) k])%list
            {| fs := tree';
               out := (out w ++
                       [Copied (pname src) (numbered (pname src) k)])%list |}
    /\ (forall j, 1 <= j < k ->
                  In (numbered (pname src) j) (map fst es))
    /\ ~ In (numbered (pname src) k) (map fst es)
    /\ lookup tree' (image_dir cfg)
       = Some (Dir (es ++ [(numbered (pname src) k, File data)]))
    /\ stat tree' src = Some (File data)
    /\ extends (fs w) tree'.
Proof.
  intros Hne Htaken. pose proof image_dir_clean as Hc.
  set (name := pname src) in *.
  destruct (unused_number (fs w) (image_dir cfg) es name Hc Hdir 1)
    as [k0 Hk0].
  destruct (probe_spec (fs w) (image_dir cfg) name
                       (S (List.length es)) 1)
    as [k [Hp [Hle [Hun Hall]]]]; [eauto|].
  assert (Hnone : assoc (numbered name k) es = None).
  { apply assoc_None_iff. intros HIn.
    apply (exists_alt (fs w) (image_dir cfg) es name Hc Hdir) in HIn.
    congruence. }
  destruct (copy2_fresh w src data (image_dir cfg) es (numbered name k))
    as [tree' [Hcp [Hd [Hf Hdirs]]]];
    auto using numbered_not_empty, numbered_not_dotdot.
  pose proof (frame_stat _ _ Hf Hdirs) as Hext.
  exists k, tree'. split; [assumption|]. split.
  - unfold _copy_image_to_image_dir. run. fold name. rewrite Htaken.
    simpl. unfold probe_fuel. rewrite stat_clean, Hdir by assumption.
    rewrite (pjoin_nonempty _ name) by assumption.
    unfold pname at 1 2. rewrite last_last. rewrite Hp. run.
    rewrite Hcp. rewrite pjoin_nonempty by apply numbered_not_empty.
    unfold pname. now rewrite last_last.
  - split; [|split; [|auto]].
    + intros j Hj.
      apply (exists_alt (fs w) (image_dir cfg) es name Hc Hdir). auto.
    + now apply assoc_None_iff.
Qed.

End Copy.

End CopyFacts.

(* ================================================================== *)
(** ** Facts about names *)

Module PathFacts.
Import PathLib StrFacts.

Lemma rfind_get (c : ascii) (s : string) (i : nat) :
  Str.rfind c s = Some i -> String.get i s = Some c.
Proof.
  revert i; induction s as [|a s IH]; intros i H; simpl in *;
    [discriminate|].
  destruct (Str.rfind c s) as [j|].
  - injection H as <-. simpl. auto.
  - destruct (Ascii.eqb_spec a c) as [->|]; [|discriminate].
    now injection H as <-.
Qed.

Lemma rfind_lt (c : ascii) (s : string) (i : nat) :
  Str.rfind c s = Some i -> i < String.length s.
Proof.
  revert i; induction s as [|a s IH]; intros i H; simpl in *;
    [discriminate|].
  destruct (Str.rfind c s) as [j|].
  - injection H as <-. specialize (IH j eq_refl). lia.
  - destruct (Ascii.eqb a c); [|discriminate]. injection H as <-. lia.
Qed.

Lemma substring_split (s : string) (i : nat) :
  i <= String.length s ->
  substring 0 i s ++ substring i (String.length s - i) s = s.
Proof.
  revert i; induction s as [|a s IH]; intros [|i] H; simpl in *;
    try reflexivity; try lia.
  - f_equal. clear. induction s; simpl; congruence.
  - f_equal. apply IH. lia.
Qed.

Lemma stem_suffix (name : string) : stem name ++ suffix name = name.
Proof.
  unfold stem, suffix.
  destruct (Str.rfind "." name) as [i|] eqn:E; [|apply append_nil_r].
  destruct ((0 <? i)%nat && (i <? String.length name - 1)%nat);
    [|apply append_nil_r].
  apply substring_split. apply rfind_lt in E. lia.
Qed.

(** A name has a suffix only if it has a dot strictly inside. *)
Lemma suffix_empty (name : string) :
  (forall i, 0 < i < String.length name - 1 ->
             String.get i name <> Some "."%char) ->
  suffix name = "".
Proof.
  intros H. unfold suffix.
  destruct (Str.rfind "." name) as [i|] eqn:E; [|reflexivity].
  destruct (0 <? i)%nat eqn:E0; [|reflexivity].
  destruct (i <? String.length name - 1)%nat eqn:E1; [|reflexivity].
  apply Nat.ltb_lt in E0, E1. apply rfind_get in E.
  exfalso. apply (H i); [lia | assumption].
Qed.

End PathFacts.

(* ================================================================== *)
(** ** The attachment locator *)

Module LocateFacts.
Import PathLib FS Eff Sync StrFacts FSFacts CopyFacts.

Lemma node_ind (P : node -> Prop) :
  (forall d, P (File d)) ->
  (forall es, Forall (fun kc => P (snd kc)) es -> P (Dir es)) ->
  forall n, P n.
Proof.
  intros HF HD. fix IH 1. intros [d|es]; [apply HF|].
  apply HD. induction es as [|[k c] es IHes]; constructor;
    [apply IH | assumption].
Qed.

Lemma all_dirs_complete (q : path) :
  forall (n : node) (p : path) es,
    lookup n q = Some (Dir es) -> In ((p ++ q)%list, es) (all_dirs p n).
Proof.
  induction q as [|c q IH]; intros n p es H; simpl in H.
  - injection H as ->. rewrite app_nil_r. simpl. now left.
  - destruct n as [d|es0]; [discriminate|].
    destruct (assoc c es0) as [ch|] eqn:E; [|discriminate].
    simpl. right. apply in_flat_map. exists (c, ch). split.
    + now apply assoc_In.
    + simpl. specialize (IH ch (p ++ [c])%list es H).
      now rewrite <- app_assoc in IH.
Qed.

Lemma wf_Dir es :
  wf (Dir es) = true ->
  NoDup (map fst es)
  /\ forall k c, In (k, c) es -> valid_name k = true /\ wf c = true.
Proof.
  simpl. intros H. apply andb_prop in H as [H1 H2]. split.
  - now apply nodupb_NoDup.
  - intros k c HIn. rewrite forallb_forall in H2.
    specialize (H2 _ HIn). simpl in H2. now apply andb_prop in H2.
Qed.

Lemma all_dirs_sound (n : node) :
  forall (p d : path) es,
    wf n = true -> In (d, es) (all_dirs p n) ->
    exists q, d = (p ++ q)%list /\ lookup n q = Some (Dir es).
Proof.
  induction n as [data|es0 IH] using node_ind; intros p d es Hwf H.
  - destruct H.
  - simpl in H. destruct H as [E|H].
    + injection E as <- <-. exists []. now rewrite app_nil_r.
    + apply in_flat_map in H as [[k c] [HIn H]]. simpl in H.
      destruct (wf_Dir _ Hwf) as [ND Hch].
      rewrite Forall_forall in IH.
      destruct (IH _ HIn _ _ _ (proj2 (Hch _ _ HIn)) H) as [q [-> Hq]].
      exists (k :: q). split; [now rewrite <- app_assoc|].
      simpl. now rewrite (In_assoc k c es0 ND HIn).
Qed.

Lemma valid_name_spec (k : string) :
  valid_name k = true -> k <> "" /\ k <> "..".
Proof.
  unfold valid_name. intros H.
  repeat (apply andb_prop in H as [H ?]).
  split; intros ->; discriminate.
Qed.

(** The names along an existing path of a well-formed tree. *)
Lemma lookup_wf (p : path) :
  forall (n x : node),
    wf n = true -> lookup n p = Some x ->
    wf x = true /\ ~ In ".." p /\ ~ In "" p.
Proof.
  induction p as [|c p IH]; intros n x Hwf H; simpl in H.
  - injection H as <-. simpl. tauto.
  - destruct n as [d|es]; [discriminate|].
    destruct (assoc c es) as [ch|] eqn:E; [|discriminate].
    destruct (wf_Dir _ Hwf) as [_ Hch].
    destruct (Hch _ _ (assoc_In _ _ _ E)) as [Hv Hw].
    destruct (valid_name_spec _ Hv) as [V1 V2].
    destruct (IH _ _ Hw H) as [Hx [N1 N2]].
    split; [assumption|]. simpl.
    split; intros [X|X]; auto.
Qed.

Lemma not_in_app (x : string) (a b : path) :
  ~ In x a -> ~ In x b -> ~ In x (a ++ b)%list.
Proof. intros Ha Hb H. apply in_app_or in H as [H|H]; auto. Qed.

Section Searching.
Variable fnmatch : string -> string -> bool.
Variables (tree : node) (root : path).
Hypothesis Hwf : wf tree = true.
Hypothesis Hclean : ~ In ".." root.

Lemma select_root (cand : string) (p : path) :
  In p (select fnmatch tree root cand) ->
  exists es, lookup tree root = Some (Dir es).
Proof.
  unfold select. rewrite stat_clean by assumption.
  destruct (lookup tree root) as [[d|es]|]; try contradiction. eauto.
Qed.

Lemma select_sound (cand : string) (p : path) :
  exists_ tree (pjoin root cand) = false ->
  In p (select fnmatch tree root cand) -> exists_ tree p = true ->
  hit fnmatch tree root cand p.
Proof.
  intros Hdirect HIn Hex. right.
  destruct (select_root _ _ HIn) as [es0 Hroot].
  destruct (lookup_wf root tree _ Hwf Hroot) as [Hwf0 _].
  unfold select in HIn. rewrite stat_clean, Hroot in HIn by assumption.
  unfold name_matches.
  destruct (is_wildcard cand).
  - apply in_flat_map in HIn as [[d es] [Hd HIn]]. simpl in HIn.
    apply in_map_iff in HIn as [[k c] [<- HIn]].
    apply filter_In in HIn as [HIn Hm]. cbn [fst snd] in *.
    destruct (all_dirs_sound (Dir es0) _ _ _ Hwf0 Hd) as [q [-> Hq]].
    exists q, k. split; [now rewrite <- app_assoc|]. split; [|assumption].
    rewrite <- app_assoc, lookup_app, Hroot, lookup_app, Hq. simpl.
    intros X. destruct (assoc k es) eqn:E; [discriminate|].
    apply assoc_None_iff in E. apply E.
    change k with (fst (k, c)). now apply in_map.
  - apply filter_In in HIn as [HIn _].
    apply in_map_iff in HIn as [[d es] [<- Hd]]. cbn [fst snd] in *.
    destruct (all_dirs_sound (Dir es0) _ _ _ Hwf0 Hd) as [q [-> Hq]].
    destruct (String.eqb_spec cand "") as [->|Hne].
    { exfalso. unfold pjoin in Hdirect. simpl in Hdirect.
      unfold exists_ in Hdirect.
      rewrite stat_clean, Hroot in Hdirect by assumption. discriminate. }
    destruct (String.eqb_spec cand "..") as [->|Hnd].
    { exfalso. rewrite pjoin_nonempty in Hdirect by discriminate.
      rewrite (exists_dotdot _ _ es0) in Hdirect by assumption.
      discriminate. }
    rewrite pjoin_nonempty in Hex |- * by assumption.
    exists q, cand. split; [now rewrite <- app_assoc|].
    split; [|apply String.eqb_refl].
    assert (Hq' : lookup tree (root ++ q)%list = Some (Dir es))
      by now rewrite lookup_app, Hroot.
    destruct (lookup_wf _ _ _ Hwf Hq') as [_ [Hc _]].
    unfold exists_ in Hex.
    rewrite stat_clean in Hex by now apply not_in_app_single.
    now destruct (lookup tree ((root ++ q) ++ [cand])%list).
Qed.

Lemma select_complete (cand : string) (p : path) :
  hit fnmatch tree root cand p ->
  exists_ tree (pjoin root cand) = false ->
  exists p', find (exists_ tree) (select fnmatch tree root cand) = Some p'.
Proof.
  intros [[-> Hex]|[q [n [-> [Hl Hm]]]]] Hdirect; [congruence|].
  destruct (lookup tree (root ++ q ++ [n])%list) as [x|] eqn:Ex;
    [clear Hl | congruence].
  destruct (lookup_wf _ _ _ Hwf Ex) as [_ [Hc He]].
  assert (Ex' := Ex). rewrite app_assoc in Ex'.
  destruct (lookup_parent _ _ _ _ Ex') as [es Hq].
  assert (Hn : assoc n es = Some x).
  { rewrite lookup_app, Hq in Ex'. simpl in Ex'.
    destruct (assoc n es) as [y|]; [|discriminate].
    simpl in Ex'. congruence. }
  rewrite lookup_app in Hq.
  destruct (lookup tree root) as [r|] eqn:Hroot; [|discriminate].
  assert (Hr : exists es0, r = Dir es0).
  { destruct r as [d|es0]; [|eauto]. destruct q; discriminate. }
  destruct Hr as [es0 ->].
  assert (Hp : In (root ++ q ++ [n])%list (select fnmatch tree root cand)).
  { unfold select. rewrite stat_clean, Hroot by assumption.
    pose proof (all_dirs_complete q (Dir es0) root es Hq) as Hd.
    unfold name_matches in Hm. destruct (is_wildcard cand).
    - apply in_flat_map. exists ((root ++ q)%list, es). split; [assumption|].
      simpl. apply in_map_iff. exists (n, x). split.
      + simpl. now rewrite <- app_assoc.
      + apply filter_In. split; [now apply assoc_In | assumption].
    - apply String.eqb_eq in Hm. subst n.
      apply filter_In. split.
      + apply in_map_iff. exists ((root ++ q)%list, es). split; [|assumption].
        simpl. rewrite pjoin_nonempty.
        * now rewrite <- app_assoc.
        * intros ->. apply He. apply in_or_app. right.
          apply in_or_app. right. now left.
      + unfold exists_. rewrite stat_clean by assumption. now rewrite Ex. }
  destruct (find (exists_ tree) (select fnmatch tree root cand)) as [p'|]
    eqn:Ef; [eauto|].
  exfalso. pose proof (find_none _ _ Ef _ Hp) as X.
  unfold exists_ in X. rewrite stat_clean, Ex in X by assumption.
  discriminate.
Qed.

Lemma rglob_plain (cand : string) :
  Str.occurs2 "*" "*" cand = false ->
  rglob fnmatch tree root cand = inr (select fnmatch tree root cand).
Proof.
  intros H. unfold rglob. rewrite H.
  destruct (String.eqb_spec cand "**") as [->|_]; [discriminate|].
  reflexivity.
Qed.

(** On patterns [Path.rglob] accepts the loop does not raise. *)
Lemma first_hit_plain (cands : list string) :
  (forall c, In c cands -> Str.occurs2 "*" "*" c = false) ->
  exists r, first_hit fnmatch tree root cands = inr r.
Proof.
  induction cands as [|c cands IH]; simpl; intros H; [eauto|].
  destruct (exists_ tree (pjoin root c)); [eauto|].
  rewrite rglob_plain by auto.
  destruct (find (exists_ tree) (select fnmatch tree root c)); eauto.
Qed.

(** The result of the locator, when there is one: a hit of the
    first candidate that has any, the child of the root when that
    exists. *)
Lemma first_hit_sound (cands : list string) (p : path) :
  (forall c, In c cands -> Str.occurs2 "*" "*" c = false) ->
  first_hit fnmatch tree root cands = inr (Some p) ->
  exists l1 cand l2,
    cands = (l1 ++ cand :: l2)%list
    /\ (forall c p', In c l1 -> ~ hit fnmatch tree root c p')
    /\ hit fnmatch tree root cand p
    /\ (exists_ tree (pjoin root cand) = true -> p = pjoin root cand).
Proof.
  induction cands as [|c cands IH]; simpl; intros Hp H; [discriminate|].
  destruct (exists_ tree (pjoin root c)) eqn:Ed.
  - injection H as <-. exists [], c, cands.
    split; [reflexivity|]. split; [intros ? ? []|]. split; [|auto].
    now left.
  - rewrite rglob_plain in H by auto.
    destruct (find (exists_ tree) (select fnmatch tree root c)) as [f|]
      eqn:Ef.
    + injection H as <-. exists [], c, cands.
      split; [reflexivity|]. split; [intros ? ? []|].
      split; [|intros X; congruence].
      apply find_some in Ef as [HIn Hex]. now apply select_sound.
    + destruct (IH (fun c0 H0 => Hp c0 (or_intror H0)) H)
        as [l1 [cand [l2 [-> [Hno [Hh Hd]]]]]].
      exists (c :: l1), cand, l2. split; [reflexivity|].
      split; [|auto]. intros c' p' [<-|HIn]; [|auto].
      intros Hh'. destruct (select_complete _ _ Hh' Ed) as [p'' X].
      congruence.
Qed.

Lemma first_hit_complete (cands : list string) (cand : string) (p : path) :
  (forall c, In c cands -> Str.occurs2 "*" "*" c = false) ->
  In cand cands -> hit fnmatch tree root cand p ->
  exists p', first_hit fnmatch tree root cands = inr (Some p').
Proof.
  induction cands as [|c cands IH]; simpl; intros Hp HIn Hh;
    [contradiction|].
  destruct (exists_ tree (pjoin root c)) eqn:Ed; [eauto|].
  rewrite rglob_plain by auto.
  destruct (find (exists_ tree) (select fnmatch tree root c)) as [f|]
    eqn:Ef; [eauto|].
  destruct HIn as [->|HIn]; [|auto].
  destruct (select_complete _ _ Hh Ed) as [p'' X]. congruence.
Qed.

End Searching.

End LocateFacts.

(* ================================================================== *)
(** ** The two substitutions *)

Module RewriteFacts.
Import PathLib FS Eff Shutil Re Sync StrFacts FSFacts CopyFacts.

(** A match is a prefix of the text: group 0, then the rest. *)
Lemma match_embed_sound (s rest : string) (m : ematch) :
  match_embed s = Some (m, rest) -> s = e_all m ++ rest.
Proof.
  unfold match_embed. intros H.
  destruct (Str.drop_prefix "![[" s) as [s1|] eqn:E1; [|discriminate].
  apply drop_prefix_sound in E1. subst s.
  destruct (Str.span not_pipe_rbracket s1) as [tok s2] eqn:E2.
  eapply span_sound in E2. subst s1.
  destruct (tok =? ""); [discriminate|].
  destruct (Str.drop_prefix "]]" s2) as [r|] eqn:E3.
  - apply drop_prefix_sound in E3. subst s2. injection H as <- <-.
    simpl. now rewrite !append_assoc.
  - destruct s2 as [|c s3]; [discriminate|].
    destruct (Ascii.eqb_spec c "|"%char) as [->|N].
    2:{ destruct c as [[] [] [] [] [] [] [] []]; try discriminate.
        congruence. }
    destruct (Str.span not_rbracket s3) as [par s4] eqn:E4.
    eapply span_sound in E4. subst s3.
    destruct (par =? ""); [discriminate|].
    destruct (Str.drop_prefix "]]" s4) as [r|] eqn:E5; [|discriminate].
    apply drop_prefix_sound in E5. subst s4. injection H as <- <-.
    simpl. rewrite !append_assoc. simpl. now rewrite !append_assoc.
Qed.

Lemma match_std_sound (s rest : string) (m : smatch) :
  match_std s = Some (m, rest) -> s = s_all m ++ rest.
Proof.
  unfold match_std. intros H.
  destruct (Str.drop_prefix "![" s) as [s1|] eqn:E1; [|discriminate].
  apply drop_prefix_sound in E1. subst s.
  destruct (Str.span not_rbracket s1) as [alt s2] eqn:E2.
  eapply span_sound in E2. subst s1.
  destruct (Str.drop_prefix "](" s2) as [s3|] eqn:E3; [|discriminate].
  apply drop_prefix_sound in E3. subst s2.
  destruct (Str.span not_rparen s3) as [pth s4] eqn:E4.
  eapply span_sound in E4. subst s3.
  destruct (pth =? ""); [discriminate|].
  destruct (Str.drop_prefix ")" s4) as [r|] eqn:E5; [|discriminate].
  apply drop_prefix_sound in E5. subst s4. injection H as <- <-.
  simpl. rewrite !append_assoc. simpl. now rewrite !append_assoc.
Qed.

Lemma match_embed_bang (s : string) :
  starts_bang s = false -> match_embed s = None.
Proof.
  intros H. unfold match_embed.
  destruct (Str.drop_prefix "![[" s) as [s1|] eqn:E; [|reflexivity].
  apply drop_prefix_sound in E. subst s. discriminate.
Qed.

Lemma match_std_bang (s : string) :
  starts_bang s = false -> match_std s = None.
Proof.
  intros H. unfold match_std.
  destruct (Str.drop_prefix "![" s) as [s1|] eqn:E; [|reflexivity].
  apply drop_prefix_sound in E. subst s. discriminate.
Qed.

Lemma occurs2_head (c : ascii) (s : string) :
  Str.occurs2 "!" "[" (String c s) = false ->
  starts_bang (String c s) = false /\ Str.occurs2 "!" "[" s = false.
Proof.
  simpl. destruct s as [|d s]; [now destruct c as [[] [] [] [] [] [] [] []]|].
  intros H. apply orb_false_iff in H as [H1 H2]. split; [|assumption].
  destruct (Ascii.eqb_spec c "!"%char) as [->|N1];
    destruct (Ascii.eqb_spec d "["%char) as [->|N2];
    try discriminate; simpl.
  - destruct d as [[] [] [] [] [] [] [] []]; try reflexivity. congruence.
  - destruct c as [[] [] [] [] [] [] [] []]; try reflexivity. congruence.
  - destruct c as [[] [] [] [] [] [] [] []]; try reflexivity. congruence.
Qed.

(** A substitution whose pattern needs [!] and [[] leaves a text
    without that pair as it is, and calls nothing. *)
Lemma sub_from_fixed {T : Type} (matcher : string -> option (T * string))
      (repl : T -> M string) :
  (forall s, starts_bang s = false -> matcher s = None) ->
  forall (fuel : nat) (s : string) (w : world),
    Str.occurs2 "!" "[" s = false ->
    sub_from matcher repl fuel s w = Ok s w.
Proof.
  intros Hm. induction fuel as [|fuel IH]; intros s w H; [reflexivity|].
  simpl. destruct s as [|c s].
  - rewrite Hm by reflexivity. reflexivity.
  - destruct (occurs2_head _ _ H) as [Hb Ho].
    rewrite Hm by assumption. unfold bind. now rewrite IH.
Qed.

(** One step of a substitution at a position where the pattern
    matches. *)
Lemma sub_from_match {T : Type} (matcher : string -> option (T * string))
      (repl : T -> M string) (fuel : nat) (s rest : string) (m : T) :
  matcher s = Some (m, rest) ->
  sub_from matcher repl (S fuel) s =
  (r <- repl m ;; t <- sub_from matcher repl fuel rest ;; ret (r ++ t)).
Proof. intros H. simpl. now rewrite H. Qed.

(** [String.length s] positions are enough: more fuel changes
    nothing. *)
Lemma sub_from_enough {T : Type} (matcher : string -> option (T * string))
      (repl : T -> M string) :
  (forall s m rest, matcher s = Some (m, rest) ->
                    String.length rest < String.length s) ->
  forall (n1 n2 : nat) (s : string) (w : world),
    String.length s <= n1 -> String.length s <= n2 ->
    sub_from matcher repl n1 s w = sub_from matcher repl n2 s w.
Proof.
  intros Hm.
  assert (E0 : forall n w, sub_from matcher repl n "" w = Ok "" w).
  { intros [|n] w; [reflexivity|]. simpl.
    destruct (matcher "") as [[m rest]|] eqn:E; [|reflexivity].
    apply Hm in E. simpl in E. lia. }
  induction n1 as [|n1 IH]; intros n2 s w H1 H2.
  - destruct s; [|simpl in H1; lia]. now rewrite !E0.
  - destruct n2 as [|n2].
    + destruct s; [|simpl in H2; lia]. now rewrite !E0.
    + simpl. destruct (matcher s) as [[m rest]|] eqn:E.
      * pose proof (Hm _ _ _ E) as L. unfold bind.
        destruct (repl m w) as [r w'|e]; [|reflexivity].
        rewrite (IH n2 rest w') by lia. reflexivity.
      * destruct s as [|c s]; [reflexivity|]. simpl in H1, H2.
        unfold bind. rewrite (IH n2 s w) by lia. reflexivity.
Qed.

Lemma match_embed_shorter (s rest : string) (m : ematch) :
  match_embed s = Some (m, rest) -> String.length rest < String.length s.
Proof.
  intros H. pose proof (match_embed_sound _ _ _ H) as E.
  assert (L : 3 <= String.length (e_all m)).
  { unfold match_embed in H.
    destruct (Str.drop_prefix "![[" s) as [s1|]; [|discriminate].
    destruct (Str.span not_pipe_rbracket s1) as [tok s2].
    destruct (tok =? ""); [discriminate|].
    destruct (Str.drop_prefix "]]" s2) as [r|].
    - injection H as <- _. simpl. lia.
    - destruct s2 as [|c s3]; [discriminate|].
      destruct (Ascii.eqb_spec c "|"%char) as [->|N].
      2:{ destruct c as [[] [] [] [] [] [] [] []]; try discriminate.
          congruence. }
      destruct (Str.span not_rbracket s3) as [par s4].
      destruct (par =? ""); [discriminate|].
      destruct (Str.drop_prefix "]]" s4) as [r|]; [|discriminate].
      injection H as <- _. simpl. lia. }
  rewrite E, length_append. lia.
Qed.

Lemma match_std_shorter (s rest : string) (m : smatch) :
  match_std s = Some (m, rest) -> String.length rest < String.length s.
Proof.
  intros H. pose proof (match_std_sound _ _ _ H) as E.
  assert (L : 2 <= String.length (s_all m)).
  { unfold match_std in H.
    destruct (Str.drop_prefix "![" s) as [s1|]; [|discriminate].
    destruct (Str.span not_rbracket s1) as [alt s2].
    destruct (Str.drop_prefix "](" s2) as [s3|]; [|discriminate].
    destruct (Str.span not_rparen s3) as [pth s4].
    destruct (pth =? ""); [discriminate|].
    destruct (Str.drop_prefix ")" s4) as [r|]; [|discriminate].
    injection H as <- _. simpl. lia. }
  rewrite E, length_append. lia.
Qed.

Lemma re_sub_embed_enough (repl : ematch -> M string) (n : nat)
      (s : string) (w : world) :
  String.length s <= n ->
  sub_from match_embed repl n s w = re_sub match_embed repl s w.
Proof.
  intros H. apply sub_from_enough; auto.
  intros s0 m rest. apply match_embed_shorter.
Qed.

Lemma re_sub_std_enough (repl : smatch -> M string) (n : nat)
      (s : string) (w : world) :
  String.length s <= n ->
  sub_from match_std repl n s w = re_sub match_std repl s w.
Proof.
  intros H. apply sub_from_enough; auto.
  intros s0 m rest. apply match_std_shorter.
Qed.

(** *** The size parameter *)

Lemma eqb_empty_false (s : string) : s <> "" -> (s =? "") = false.
Proof. intros H. now apply String.eqb_neq. Qed.



Lemma match_dims_sound (s w h : string) :
  match_dims s = Some (w, h) ->
  WxH s w h \/ exists d, s = d ++ newline /\ WxH d w h.
Proof.
  unfold match_dims.
  destruct (Str.span Str.isdigit s) as [w' r1] eqn:E1.
  pose proof (span_all _ _ _ _ E1) as Dw. eapply span_sound in E1. subst s.
  destruct (w' =? "") eqn:Hw; [discriminate|].
  apply String.eqb_neq in Hw.
  destruct r1 as [|c r2]; [discriminate|].
  destruct (Ascii.eqb_spec c "x"%char) as [->|N].
  2:{ destruct c as [[] [] [] [] [] [] [] []]; try discriminate.
      congruence. }
  destruct (Str.span Str.isdigit r2) as [h' r3] eqn:E2.
  pose proof (span_all _ _ _ _ E2) as Dh. eapply span_sound in E2. subst r2.
  destruct (h' =? "") eqn:Hh; [discriminate|].
  apply String.eqb_neq in Hh.
  destruct (r3 =? "") eqn:N3; simpl.
  - apply String.eqb_eq in N3. subst r3.
    intros H. injection H as <- <-. left. rewrite append_nil_r.
    repeat split; assumption.
  - destruct (r3 =? String "010" "") eqn:N4; [|discriminate].
    apply String.eqb_eq in N4. subst r3.
    intros H. injection H as <- <-. right. exists (w' ++ "x" ++ h'). split.
    + now rewrite append_assoc.
    + repeat split; assumption.
Qed.

Lemma size_attrs_digits (param : option string) :
  Str.contains "[" (fst (size_attrs param)) = false
  /\ Str.contains "[" (snd (size_attrs param)) = false.
Proof.
  unfold size_attrs. destruct param as [prm|]; [|now split].
  destruct (match_dims (Str.strip_char "|" prm)) as [[w h]|] eqn:E;
    [|now split].
  assert (D : forall d, Str.all Str.isdigit d = true ->
                        Str.contains "[" d = false).
  { induction d as [|c d IH]; simpl; intros H; [reflexivity|].
    apply andb_prop in H as [Hc H]. rewrite IH by assumption.
    destruct c as [[] [] [] [] [] [] [] []]; try reflexivity;
      discriminate. }
  apply match_dims_sound in E.
  assert (Dw : Str.all Str.isdigit w = true /\ Str.all Str.isdigit h = true).
  { destruct E as [[_ [_ [_ X]]]|[d [_ [_ [_ [_ X]]]]]]; exact X. }
  unfold attr. simpl. rewrite !contains_app. simpl.
  rewrite (D w), (D h) by apply Dw. now split.
Qed.

(** *** Occurrences of the opening pair *)

Lemma occurs2_app_left (a b : ascii) (x y : string) :
  Str.contains a x = false ->
  Str.occurs2 a b (x ++ y) = Str.occurs2 a b y.
Proof.
  induction x as [|c x IH]; intros H; [reflexivity|].
  simpl in H. apply orb_false_iff in H as [Hc H].
  change (String c x ++ y) with (String c (x ++ y)).
  cbn [Str.occurs2]. rewrite Hc. simpl. rewrite (IH H).
  destruct (x ++ y) eqn:E; [|reflexivity].
  destruct x; [|discriminate]. simpl in E. now subst y.
Qed.

Lemma occurs2_app_right (a b : ascii) (x y : string) :
  Str.contains b y = false ->
  Str.occurs2 a b (x ++ y) = Str.occurs2 a b x.
Proof.
  intros H. induction x as [|c x IH].
  - simpl. induction y as [|d y IHy]; [reflexivity|].
    simpl in H. apply orb_false_iff in H as [Hd H].
    cbn [Str.occurs2]. destruct y as [|e y]; [reflexivity|].
    rewrite (IHy H). simpl in H. apply orb_false_iff in H as [He _].
    rewrite He. now rewrite andb_false_r.
  - change (String c x ++ y) with (String c (x ++ y)).
    cbn [Str.occurs2]. rewrite IH.
    destruct x as [|d x]; [|reflexivity]. simpl.
    destruct y as [|e y]; [reflexivity|].
    simpl in H. apply orb_false_iff in H as [He _].
    rewrite He. now rewrite andb_false_r.
Qed.

Lemma img_tag_clean (name : string) (param : option string) :
  Str.occurs2 "!" "[" name = false ->
  Str.occurs2 "!" "["
    (img_tag name (fst (size_attrs param)) (snd (size_attrs param)))
  = false.
Proof.
  intros H. destruct (size_attrs_digits param) as [Hw Hh].
  unfold img_tag.
  rewrite <- append_assoc. rewrite <- append_assoc.
  rewrite occurs2_app_left by reflexivity.
  rewrite occurs2_app_right; [assumption|].
  rewrite !contains_app, Hw, Hh. reflexivity.
Qed.

(** *** Texts a substitution pass leaves as they are *)




Section Pass.
Context {T : Type}.
Variable matcher : string -> option (T * string).
Variable repl : T -> M string.
Variable all_of : T -> string.
Variable tree0 : node.
Variable kept : T -> bool.

Hypothesis Hsound :
  forall s m rest, matcher s = Some (m, rest) ->
                   s = all_of m ++ rest /\ exists a, all_of m = String "!" a.
Hypothesis Hkept :
  forall m w0, fs w0 = tree0 -> kept m = true ->
               exists w1, repl m w0 = Ok (all_of m) w1 /\ fs w1 = tree0.
Hypothesis Hrepl :
  forall m w0 r w1, fs w0 = tree0 -> kept m = false ->
                    repl m w0 = Ok r w1 -> exists b, r = String "<" b.



End Pass.

End RewriteFacts.

(* ================================================================== *)
(** ** Properties of [_copy_image_to_image_dir] *)

Module CopyProps.
Import PathLib FS Eff Shutil Sync StrFacts FSFacts PathFacts CopyFacts.
Import Fixtures.

Lemma numbered_neq_name (name : string) (k : nat) : numbered name k <> name.
Proof.
  intros E. apply (f_equal String.length) in E.
  assert (L : String.length name
              = String.length (stem name) + String.length (suffix name))
    by now rewrite <- length_append, stem_suffix.
  unfold numbered in E. rewrite !length_append in E. simpl in E. lia.
Qed.

(** The number the probing loop stops at is determined by the names
    in use. *)
Lemma least_unused (name : string) (keys : list string) (k m : nat) :
  (forall j, 1 <= j < k -> In (numbered name j) keys) ->
  ~ In (numbered name k) keys ->
  (forall j, 1 <= j < m -> In (numbered name j) keys) ->
  ~ In (numbered name m) keys ->
  1 <= k -> 1 <= m -> k = m.
Proof.
  intros Hk Hnk Hm Hnm Lk Lm.
  destruct (Nat.lt_trichotomy k m) as [L|[E|L]]; [|assumption|].
  - exfalso. apply Hnk, Hm. lia.
  - exfalso. apply Hnm, Hk. lia.
Qed.

Lemma keys_snoc (es : list (string * node)) (k : string) (x : node) :
  map fst (es ++ [(k, x)]) = (map fst es ++ [k])%list.
Proof. now rewrite map_app. Qed.

Lemma exists_listed (tree : node) (dir : path) es (k : string) :
  ~ In ".." dir -> lookup tree dir = Some (Dir es) ->
  k <> "" -> k <> ".." ->
  exists_ tree (pjoin dir k) = true <-> In k (map fst es).
Proof.
  intros Hc Hl Hk Hk'. unfold exists_.
  rewrite (exists_entry tree dir es) by assumption.
  pose proof (assoc_None_iff k es) as H.
  destruct (assoc k es) as [x|].
  - split; [intros _|reflexivity].
    destruct (in_dec string_dec k (map fst es)) as [Hin|Hout];
      [assumption|]. apply H in Hout. discriminate.
  - split; [discriminate|]. intros HIn. exfalso. now apply (proj1 H).
Qed.

(** C1, as the code has it: the copy keeps no record of the sources it
    has copied.  When the base name of a regular file is free in the
    output directory, a first materialization copies the file under
    that name, and a second materialization of the very same file
    copies it again, under the first unused numbered name; the two
    returned names differ and the output directory gains two entries
    with the same bytes. *)
Theorem same_source_is_copied_again
        (cfg : config) (w : world) (es : list (string * node))
        (src : path) (data : string) :
  ~ In ".." (target_dir cfg) ->
  lookup (fs w) (image_dir cfg) = Some (Dir es) ->
  stat (fs w) src = Some (File data) ->
  exists_ (fs w) (pjoin (image_dir cfg) (pname src)) = false ->
  exists w1 k w2,
    _copy_image_to_image_dir cfg src w
    = Ok (image_dir cfg ++ [pname src])%list w1
    /\ _copy_image_to_image_dir cfg src w1
       = Ok (image_dir cfg ++ [numbered (pname src) k])%list w2
    /\ 1 <= k
    /\ (forall j, 1 <= j < k -> In (numbered (pname src) j) (map fst es))
    /\ ~ In (numbered (pname src) k) (map fst es)
    /\ numbered (pname src) k <> pname src
    /\ lookup (fs w2) (image_dir cfg)
       = Some (Dir (es ++ [(pname src, File data);
                           (numbered (pname src) k, File data)])).
Proof.
  intros Hc Hdir Hsrc Hfree.
  pose proof (image_dir_clean cfg Hc) as Hic.
  destruct (copy_fresh cfg Hc w es src data Hdir Hsrc Hfree)
    as [t1 [H1 [Hnone [Hd1 [Hs1 _]]]]].
  set (w1 := {| fs := t1;
                out := (out w ++ [Copied (pname src) (pname src)])%list |})
    in *.
  assert (Hne : pname src <> "").
  { intros E. unfold pjoin in Hfree. rewrite E in Hfree. simpl in Hfree.
    unfold exists_ in Hfree. rewrite stat_clean, Hdir in Hfree by assumption.
    discriminate. }
  assert (Hnd : pname src <> "..") by now apply (file_not_dotdot (fs w) src data).
  assert (Htaken : exists_ (fs w1) (pjoin (image_dir cfg) (pname src)) = true).
  { apply (exists_listed t1 (image_dir cfg) _ (pname src) Hic Hd1 Hne Hnd).
    rewrite keys_snoc. apply in_or_app. right. now left. }
  destruct (copy_taken cfg Hc w1 _ src data Hd1 Hs1 Hne Htaken)
    as [k [t2 [Hk [H2 [Hall [Hun [Hd2 _]]]]]]].
  rewrite keys_snoc in Hun.
  exists w1, k, {| fs := t2;
                   out := (out w1 ++
                           [Copied (pname src) (numbered (pname src) k)])%list |}.
  split; [exact H1|]. split; [exact H2|]. split; [exact Hk|].
  split; [|split; [|split]].
  - intros j Hj. specialize (Hall j Hj). rewrite keys_snoc in Hall.
    apply in_app_or in Hall as [Hall|[E|[]]]; [assumption|].
    exfalso. symmetry in E. now apply numbered_neq_name in E.
  - intros HIn. apply Hun. apply in_or_app. now left.
  - apply numbered_neq_name.
  - simpl. rewrite Hd2. now rewrite <- app_assoc.
Qed.

Lemma same_source_is_copied_again_witness :
  exists w1 k w2,
    _copy_image_to_image_dir cfg logo_src (start tree_logo)
    = Ok (image_dir cfg ++ [pname logo_src])%list w1
    /\ _copy_image_to_image_dir cfg logo_src w1
       = Ok (image_dir cfg ++ [numbered (pname logo_src) k])%list w2
    /\ 1 <= k
    /\ (forall j, 1 <= j < k -> In (numbered (pname logo_src) j)
                                  (map fst (@nil (string * node))))
    /\ ~ In (numbered (pname logo_src) k) (map fst (@nil (string * node)))
    /\ numbered (pname logo_src) k <> pname logo_src
    /\ lookup (fs w2) (image_dir cfg)
       = Some (Dir ([] ++ [(pname logo_src, File "LOGO");
                           (numbered (pname logo_src) k, File "LOGO")])).
Proof.
  apply (same_source_is_copied_again cfg (start tree_logo) [] logo_src "LOGO").
  - simpl. intros [H|[]]. discriminate.
  - reflexivity.
  - reflexivity.
  - reflexivity.
Defined.

(** C1 fails on the code: the attachment [logo.png], materialized
    twice in one pass, is copied twice, and the second call returns
    the fresh name [logo_1.png]. *)
Lemma second_copy_gets_numbered_name :
  match _copy_image_to_image_dir cfg logo_src (start tree_logo) with
  | Ok first w1 =>
      match _copy_image_to_image_dir cfg logo_src w1 with
      | Ok second w2 =>
          first = ["content"; "image"; "logo.png"]
          /\ second = ["content"; "image"; "logo_1.png"]
          /\ first <> second
          /\ lookup (fs w2) (image_dir cfg)
             = Some (Dir [("logo.png", File "LOGO");
                          ("logo_1.png", File "LOGO")])
      | Raise _ => False
      end
  | Raise _ => False
  end.
Proof. vm_compute. repeat split. discriminate. Qed.

(** C4: when the base name of the source already names an entry of
    the output directory, nothing that exists is overwritten; the
    names stem_1.ext, stem_2.ext, ... are probed in increasing order
    and the file is copied to the first unused one.  Hence same-named
    sources copied one after the other get the name itself, then the
    [_1] name, then the [_2] name. *)
Theorem taken_name_is_numbered :
  (forall (cfg : config) (w : world) (es : list (string * node))
          (src : path) (data : string),
      ~ In ".." (target_dir cfg) ->
      lookup (fs w) (image_dir cfg) = Some (Dir es) ->
      stat (fs w) src = Some (File data) ->
      pname src <> "" ->
      exists_ (fs w) (pjoin (image_dir cfg) (pname src)) = true ->
      exists k w',
        _copy_image_to_image_dir cfg src w
        = Ok (image_dir cfg ++ [numbered (pname src) k])%list w'
        /\ 1 <= k
        /\ (forall j, 1 <= j < k ->
                exists_ (fs w) (pjoin (image_dir cfg) (numbered (pname src) j))
                = true)
        /\ exists_ (fs w) (pjoin (image_dir cfg) (numbered (pname src) k))
           = false
        /\ stat (fs w') (pjoin (image_dir cfg) (numbered (pname src) k))
           = Some (File data)
        /\ extends (fs w) (fs w'))
  /\
  (forall (cfg : config) (w : world) (es : list (string * node))
          (name : string) (s1 s2 s3 : path) (d1 d2 d3 : string),
      ~ In ".." (target_dir cfg) ->
      lookup (fs w) (image_dir cfg) = Some (Dir es) ->
      name <> "" ->
      pname s1 = name -> pname s2 = name -> pname s3 = name ->
      stat (fs w) s1 = Some (File d1) ->
      stat (fs w) s2 = Some (File d2) ->
      stat (fs w) s3 = Some (File d3) ->
      ~ In name (map fst es) ->
      ~ In (numbered name 1) (map fst es) ->
      ~ In (numbered name 2) (map fst es) ->
      exists w1 w2 w3,
        _copy_image_to_image_dir cfg s1 w
        = Ok (image_dir cfg ++ [name])%list w1
        /\ _copy_image_to_image_dir cfg s2 w1
           = Ok (image_dir cfg ++ [numbered name 1])%list w2
        /\ _copy_image_to_image_dir cfg s3 w2
           = Ok (image_dir cfg ++ [numbered name 2])%list w3
        /\ lookup (fs w3) (image_dir cfg)
           = Some (Dir (es ++ [(name, File d1);
                               (numbered name 1, File d2);
                               (numbered name 2, File d3)]))).
Proof.
  split.
  - intros cfg w es src data Hc Hdir Hsrc Hne Htaken.
    pose proof (image_dir_clean cfg Hc) as Hic.
    destruct (copy_taken cfg Hc w es src data Hdir Hsrc Hne Htaken)
      as [k [t' [Hk [Hcp [Hall [Hun [Hd [_ Hext]]]]]]]].
    eexists k, _. split; [exact Hcp|]. split; [exact Hk|].
    assert (V : forall j, numbered (pname src) j <> ""
                          /\ numbered (pname src) j <> "..")
      by (intros j; split;
          [apply numbered_not_empty | apply numbered_not_dotdot]).
    split; [|split; [|split; [|exact Hext]]].
    + intros j Hj.
      apply (exists_listed (fs w) (image_dir cfg) es); try apply V;
        auto.
    + destruct (exists_ (fs w) (pjoin (image_dir cfg) (numbered (pname src) k)))
        eqn:E; [|reflexivity].
      apply (exists_listed (fs w) (image_dir cfg) es) in E; try apply V;
        try assumption. contradiction.
    + simpl. rewrite (exists_entry t' (image_dir cfg) _ _ Hic Hd);
        try apply V.
      assert (N : assoc (numbered (pname src) k) es = None)
        by now apply assoc_None_iff.
      clear - N. induction es as [|[k' v'] l IH]; simpl in *.
      * now rewrite String.eqb_refl.
      * destruct (k' =? numbered (pname src) k); [discriminate | auto].
  - intros cfg w es name s1 s2 s3 d1 d2 d3 Hc Hdir Hne E1 E2 E3
           F1 F2 F3 N0 N1 N2.
    pose proof (image_dir_clean cfg Hc) as Hic.
    assert (Hnd : name <> "..")
      by (rewrite <- E1; now apply (file_not_dotdot (fs w) s1 d1)).
    (* first copy *)
    assert (Hfree : exists_ (fs w) (pjoin (image_dir cfg) (pname s1)) = false).
    { rewrite E1.
      destruct (exists_ (fs w) (pjoin (image_dir cfg) name)) eqn:E;
        [|reflexivity].
      apply (exists_listed (fs w) (image_dir cfg) es) in E; auto.
      contradiction. }
    destruct (copy_fresh cfg Hc w es s1 d1 Hdir F1 Hfree)
      as [t1 [H1 [_ [Hd1 [_ X1]]]]].
    rewrite E1 in H1, Hd1.
    set (w1 := {| fs := t1; out := (out w ++ [Copied name name])%list |})
      in *.
    (* second copy *)
    assert (T2 : exists_ (fs w1) (pjoin (image_dir cfg) (pname s2)) = true).
    { rewrite E2. apply (exists_listed t1 (image_dir cfg) _ name Hic Hd1);
        auto. rewrite keys_snoc. apply in_or_app. right. now left. }
    destruct (copy_taken cfg Hc w1 _ s2 d2 Hd1 (X1 _ _ F2)
                         ltac:(now rewrite E2) T2)
      as [k [t2 [Hk [H2 [Hall [Hun [Hd2 [_ X2]]]]]]]].
    rewrite E2 in H2, Hall, Hun, Hd2.
    assert (K : k = 1).
    { apply (least_unused name (map fst (es ++ [(name, File d1)])));
        auto; rewrite keys_snoc.
      - intros j Hj. lia.
      - intros HIn. apply in_app_or in HIn as [HIn|[E|[]]];
          [contradiction|]. symmetry in E. now apply numbered_neq_name in E. }
    subst k.
    set (w2 := {| fs := t2;
                  out := (out w1 ++ [Copied name (numbered name 1)])%list |})
      in *.
    (* third copy *)
    assert (T3 : exists_ (fs w2) (pjoin (image_dir cfg) (pname s3)) = true).
    { rewrite E3. apply (exists_listed t2 (image_dir cfg) _ name Hic Hd2);
        auto. rewrite !keys_snoc. apply in_or_app. left.
      apply in_or_app. right. now left. }
    destruct (copy_taken cfg Hc w2 _ s3 d3 Hd2 (X2 _ _ (X1 _ _ F3))
                         ltac:(now rewrite E3) T3)
      as [k [t3 [Hk3 [H3 [Hall3 [Hun3 [Hd3 _]]]]]]].
    rewrite E3 in H3, Hall3, Hun3, Hd3.
    assert (K : k = 2).
    { apply (least_unused
               name (map fst ((es ++ [(name, File d1)])
                                ++ [(numbered name 1, File d2)])));
        auto; rewrite !keys_snoc.
      - intros j Hj. assert (j = 1) as -> by lia.
        apply in_or_app. right. now left.
      - intros HIn. apply in_app_or in HIn as [HIn|[E|[]]].
        + apply in_app_or in HIn as [HIn|[E|[]]]; [contradiction|].
          symmetry in E. now apply numbered_neq_name in E.
        + apply numbered_inj in E. discriminate. }
    subst k.
    eexists w1, w2, _. split; [exact H1|]. split; [exact H2|].
    split; [exact H3|]. simpl. rewrite Hd3.
    now rewrite <- !app_assoc.
Qed.

Lemma taken_name_is_numbered_witness :
  (exists k w',
      _copy_image_to_image_dir
        cfg (pic "b")
        (start tree_taken)
      = Ok ["content"; "image"; numbered "pic.png" k] w'
      /\ k = 1)
  /\
  (exists w1 w2 w3,
      _copy_image_to_image_dir cfg (pic "a") (start tree_three)
      = Ok ["content"; "image"; "pic.png"] w1
      /\ _copy_image_to_image_dir cfg (pic "b") w1
         = Ok ["content"; "image"; "pic_1.png"] w2
      /\ _copy_image_to_image_dir cfg (pic "c") w2
         = Ok ["content"; "image"; "pic_2.png"] w3
      /\ lookup (fs w3) (image_dir cfg)
         = Some (Dir [("pic.png", File "ONE");
                      ("pic_1.png", File "TWO");
                      ("pic_2.png", File "THREE")])).
Proof.
  split.
  - destruct (proj1 taken_name_is_numbered
                cfg
                (start tree_taken)
                [("pic.png", File "ONE")] (pic "b") "TWO")
      as [k [w' [H [Hk [Hall [Hun _]]]]]].
    + simpl. intros [H|[]]. discriminate.
    + reflexivity.
    + reflexivity.
    + discriminate.
    + reflexivity.
    + exists k, w'. split; [exact H|].
      destruct k as [|[|k]]; [lia | reflexivity |].
      specialize (Hall 1 ltac:(lia)). vm_compute in Hall. discriminate.
  - apply (proj2 taken_name_is_numbered
             cfg (start tree_three) [] "pic.png"
             (pic "a") (pic "b") (pic "c") "ONE" "TWO" "THREE").
    + simpl. intros [H|[]]. discriminate.
    + reflexivity.
    + discriminate.
    + reflexivity.
    + reflexivity.
    + reflexivity.
    + reflexivity.
    + reflexivity.
    + reflexivity.
    + simpl. tauto.
    + simpl. tauto.
    + simpl. tauto.
Defined.

End CopyProps.

(* ================================================================== *)
(** ** Properties of [_locate_image_by_token] *)

Module LocateProps.
Import PathLib FS Eff Sync StrFacts FSFacts PathFacts LocateFacts.
Import Fixtures.

(** C2, as the code has it: for every token whose file name has no
    dot strictly inside it, so that pathlib gives it no suffix, the
    candidates are the name, then the name with each of .png, .jpg,
    .jpeg, .gif, .svg, .webp appended in that order, then the name
    without its dots with each of these extensions. *)
Theorem candidates_of_suffixless_token (token : string) :
  (forall i, 0 < i < String.length (name_of token) - 1 ->
             String.get i (name_of token) <> Some "."%char) ->
  candidates token =
  let name := name_of token in
  let base := Str.remove_char "." name in
  [name;
   name ++ ".png"; name ++ ".jpg"; name ++ ".jpeg";
   name ++ ".gif"; name ++ ".svg"; name ++ ".webp";
   base ++ ".png"; base ++ ".jpg"; base ++ ".jpeg";
   base ++ ".gif"; base ++ ".svg"; base ++ ".webp"].
Proof.
  intros H. unfold candidates. now rewrite (suffix_empty _ H).
Qed.

Lemma candidates_of_suffixless_token_witness :
  candidates ".logo." =
  [".logo.";
   ".logo..png"; ".logo..jpg"; ".logo..jpeg";
   ".logo..gif"; ".logo..svg"; ".logo..webp";
   "logo.png"; "logo.jpg"; "logo.jpeg";
   "logo.gif"; "logo.svg"; "logo.webp"].
Proof.
  apply (candidates_of_suffixless_token ".logo.").
  intros i Hi. simpl in Hi.
  do 5 (destruct i as [|i]; [simpl; try discriminate; lia|]). lia.
Defined.

(** C2 fails on the code: [weird.name] has the suffix [.name], so it
    is its own only candidate, and with nothing but [weirdname.png]
    under the attachment root the locator reports not-found. *)
Lemma weird_name_is_not_found :
  candidates "weird.name" = ["weird.name"]
  /\ lookup tree_weird (attachment_dir cfg ++ ["weirdname.png"])%list
     = Some (File "W")
  /\ _locate_image_by_token fnmatch_simple cfg "weird.name" (start tree_weird)
     = Ok None (start tree_weird).
Proof. vm_compute. auto. Qed.

(** For a token none of whose candidates holds [**], so that
    [Path.rglob] accepts every one of them: the locator does not
    raise; it takes the candidates in list order, for each it first
    looks at the child of the attachment root of that name and only
    then searches the whole subtree, and it returns the first hit.  So
    a token that has a hit anywhere below the root, however deep, is
    found, and a hit that is the only one of all the candidates is the
    one returned.  A hit is any node of the name, a directory as well
    as a regular file. *)
Theorem locate_returns_first_hit
        (fnmatch : string -> string -> bool) (cfg : config) (w : world)
        (token : string) :
  wf (fs w) = true ->
  ~ In ".." (attachment_dir cfg) ->
  (forall c, In c (candidates token) -> Str.occurs2 "*" "*" c = false) ->
  let root := attachment_dir cfg in
  exists r,
    _locate_image_by_token fnmatch cfg token w = Ok r w
    /\ (forall p, r = Some p ->
          exists l1 cand l2,
            candidates token = (l1 ++ cand :: l2)%list
            /\ (forall c p', In c l1 -> ~ hit fnmatch (fs w) root c p')
            /\ hit fnmatch (fs w) root cand p
            /\ (exists_ (fs w) (pjoin root cand) = true ->
                p = pjoin root cand))
    /\ (forall cand q n,
          In cand (candidates token) ->
          lookup (fs w) (root ++ q ++ [n])%list <> None ->
          name_matches fnmatch cand n = true ->
          exists p, r = Some p)
    /\ (forall p0,
          (exists cand, In cand (candidates token)
                        /\ hit fnmatch (fs w) root cand p0) ->
          (forall c p', In c (candidates token) ->
                        hit fnmatch (fs w) root c p' -> p' = p0) ->
          r = Some p0).
Proof.
  intros Hwf Hclean Hplain root.
  destruct (first_hit_plain fnmatch (fs w) root _ Hplain) as [r Hr].
  exists r. split.
  { unfold _locate_image_by_token, bind, get_fs, ret. cbv beta iota.
    fold root. now rewrite Hr. }
  split; [|split].
  - intros p ->. now apply first_hit_sound.
  - intros cand q n HIn Hl Hm.
    destruct (first_hit_complete fnmatch (fs w) root Hwf Hclean _ cand
                                 (root ++ q ++ [n])%list Hplain HIn)
      as [p' Hp'].
    + right. exists q, n. auto.
    + exists p'. congruence.
  - intros p0 [cand [HIn Hh]] Huniq.
    destruct (first_hit_complete fnmatch (fs w) root Hwf Hclean _ cand p0
                                 Hplain HIn Hh) as [p' Hp'].
    assert (E0 : r = Some p') by congruence. rewrite E0. f_equal.
    destruct (first_hit_sound fnmatch (fs w) root Hwf Hclean _ _ Hplain Hp')
      as [l1 [c [l2 [E [_ [Hc _]]]]]].
    apply (Huniq c); [|assumption].
    rewrite E. apply in_or_app. right. now left.
Qed.

Lemma locate_returns_first_hit_witness :
  exists r,
    _locate_image_by_token fnmatch_simple cfg "logo" (start tree_logo)
    = Ok r (start tree_logo)
    /\ r = Some logo_src.
Proof.
  destruct (locate_returns_first_hit fnmatch_simple cfg (start tree_logo)
                                     "logo")
    as [r [Hr [_ [_ Hu]]]].
  - reflexivity.
  - simpl. intros [H|[H|[]]]; discriminate.
  - intros c Hc. vm_compute in Hc.
    repeat (destruct Hc as [<-|Hc]; [reflexivity|]). destruct Hc.
  - exists r. split; [exact Hr|].
    vm_compute in Hr. now injection Hr as <-.
Defined.

(** C5 at an attachment root where the directory [logo] holds the
    picture [logo.png]: for the token [logo] the locator returns the
    directory, which exists under the first candidate name, and not
    the picture; the copy that follows fails and ends the pass. *)
Lemma directory_is_returned_for_token :
  stat tree_folder (attachment_dir cfg ++ ["logo"; "logo.png"])%list
  = Some (File "LOGO")
  /\ _locate_image_by_token fnmatch_simple cfg "logo" (start tree_folder)
     = Ok (Some (attachment_dir cfg ++ ["logo"])%list) (start tree_folder)
  /\ is_file tree_folder (attachment_dir cfg ++ ["logo"])%list = false
  /\ rewrite fnmatch_simple cfg post "![[logo]]" (start tree_folder)
     = Raise IsADirectoryError.
Proof. repeat split; reflexivity. Qed.

End LocateProps.

(* ================================================================== *)
(** ** Properties of the rewriter *)

Module RewriteProps.
Import PathLib FS Eff Shutil Re Sync.
Import StrFacts FSFacts PathFacts CopyFacts LocateFacts RewriteFacts.
Import Fixtures.

Lemma skipped_path (raw : string) :
  Str.startswith "http://" raw || Str.startswith "https://" raw
  || Str.startswith "data:" raw || Str.startswith "image/" raw = true ->
  forall fnmatch cfg md m w,
    Str.strip (s_path m) = raw ->
    replace_md_img fnmatch cfg md m w = Ok (s_all m) w.
Proof.
  intros H fnmatch cfg md m w E. unfold replace_md_img. rewrite E.
  destruct (Str.startswith "http://" raw || Str.startswith "https://" raw
            || Str.startswith "data:" raw); [reflexivity|].
  simpl in H. now rewrite H.
Qed.

Lemma guarded_prefix (pre x : string) :
  In pre ["http://"; "https://"; "data:"; "image/"] ->
  let raw := Str.strip (pre ++ x) in
  Str.startswith "http://" raw || Str.startswith "https://" raw
  || Str.startswith "data:" raw || Str.startswith "image/" raw = true.
Proof.
  intros HIn raw.
  assert (P : Str.startswith pre raw = true).
  { apply startswith_strip.
    - destruct HIn as [<-|[<-|[<-|[<-|[]]]]]; discriminate.
    - destruct HIn as [<-|[<-|[<-|[<-|[]]]]]; reflexivity. }
  destruct HIn as [<-|[<-|[<-|[<-|[]]]]]; rewrite P;
    rewrite ?orb_true_r; reflexivity.
Qed.

(** C8: a standard reference whose path begins with [http://],
    [https://], [data:] or [image/] is returned as it was matched,
    with nothing resolved, copied or printed, and so it stands
    unchanged in the output of the substitution. *)
Theorem guarded_reference_is_kept
        (fnmatch : string -> string -> bool) (cfg : config) (md : path)
        (m : smatch) (w : world) (pre x : string) :
  In pre ["http://"; "https://"; "data:"; "image/"] ->
  s_path m = pre ++ x ->
  replace_md_img fnmatch cfg md m w = Ok (s_all m) w
  /\ forall (fuel : nat) (s rest : string),
      match_std s = Some (m, rest) ->
      s = s_all m ++ rest
      /\ sub_from match_std (replace_md_img fnmatch cfg md) (S fuel) s w
         = (t <- sub_from match_std (replace_md_img fnmatch cfg md) fuel rest ;;
            ret (s_all m ++ t)) w.
Proof.
  intros HIn E.
  assert (K : replace_md_img fnmatch cfg md m w = Ok (s_all m) w).
  { apply (skipped_path (Str.strip (pre ++ x))).
    - now apply guarded_prefix.
    - now rewrite E. }
  split; [exact K|]. intros fuel s rest Hm. split.
  - now apply match_std_sound.
  - rewrite (sub_from_match _ _ _ _ _ _ Hm). unfold bind at 1.
    now rewrite K.
Qed.

Lemma guarded_reference_is_kept_witness :
  replace_md_img fnmatch_simple cfg post url_match (start tree_logo)
  = Ok "![x](https://example.com/a.png)" (start tree_logo)
  /\ sub_from match_std (replace_md_img fnmatch_simple cfg post) 1
              "![x](https://example.com/a.png)" (start tree_logo)
     = Ok "![x](https://example.com/a.png)" (start tree_logo)
  /\ rewrite fnmatch_simple cfg post "![x](https://example.com/a.png)"
             (start tree_logo)
     = Ok "![x](https://example.com/a.png)" (start tree_logo).
Proof.
  destruct (guarded_reference_is_kept
              fnmatch_simple cfg post url_match (start tree_logo)
              "https://" "example.com/a.png") as [K S].
  - simpl. auto.
  - reflexivity.
  - split; [exact K|]. split; [|reflexivity].
    destruct (S 0 "![x](https://example.com/a.png)" "" eq_refl) as [_ E].
    rewrite E. reflexivity.
Defined.

Lemma repl_obsidian_unfold fnmatch cfg (m : ematch) (w : world) :
  repl_obsidian fnmatch cfg m w =
  match first_hit fnmatch (fs w) (attachment_dir cfg)
                  (candidates (Str.strip (e_token m))) with
  | inl e => Raise e
  | inr None =>
      Ok (e_all m)
         {| fs := fs w;
            out := (out w ++ [NotFound (Str.strip (e_token m))])%list |}
  | inr (Some f) =>
      match _copy_image_to_image_dir cfg f w with
      | Ok copied w' =>
          Ok (img_tag (pname copied) (fst (size_attrs (e_param m)))
                      (snd (size_attrs (e_param m)))) w'
      | Raise e => Raise e
      end
  end.
Proof.
  unfold repl_obsidian, _locate_image_by_token, bind, ret, get_fs, print,
    raise.
  cbv beta iota.
  destruct (first_hit fnmatch (fs w) (attachment_dir cfg)
                      (candidates (Str.strip (e_token m)))) as [e|[f|]];
    [reflexivity| |reflexivity].
  destruct (_copy_image_to_image_dir cfg f w) as [copied w'|e];
    [|reflexivity].
  now destruct (size_attrs (e_param m)).
Qed.

Lemma locate_unfold fnmatch cfg (token : string) (w : world) :
  _locate_image_by_token fnmatch cfg token w =
  match first_hit fnmatch (fs w) (attachment_dir cfg) (candidates token) with
  | inl e => Raise e
  | inr r => Ok r w
  end.
Proof.
  unfold _locate_image_by_token, bind, ret, get_fs, raise. cbv beta iota.
  now destruct (first_hit fnmatch (fs w) (attachment_dir cfg)
                          (candidates token)).
Qed.

















Lemma replace_md_img_unfold fnmatch cfg md (m : smatch) (w : world) :
  let raw := Str.strip (s_path m) in
  let candidate := resolve_from (parent md) raw in
  replace_md_img fnmatch cfg md m w =
  if guarded raw then Ok (s_all m) w
  else
    match (if is_file (fs w) candidate then inr (Some candidate)
           else first_hit fnmatch (fs w) (attachment_dir cfg)
                          (candidates (name_of raw))) with
    | inl e => Raise e
    | inr None => Ok (s_all m) w
    | inr (Some f) =>
        match _copy_image_to_image_dir cfg f w with
        | Ok copied w' => Ok (img_tag (pname copied) "" "") w'
        | Raise e => Raise e
        end
    end.
Proof.
  intros raw candidate. unfold replace_md_img, guarded. fold raw.
  destruct (Str.startswith "http://" raw || Str.startswith "https://" raw
            || Str.startswith "data:" raw); [reflexivity|].
  cbn [orb].
  destruct (Str.startswith "image/" raw); [reflexivity|].
  unfold bind at 1. unfold get_fs at 1. cbv beta iota. fold candidate.
  assert (X : exists_ (fs w) candidate && is_file (fs w) candidate
              = is_file (fs w) candidate).
  { unfold exists_, is_file.
    now destruct (stat (fs w) candidate) as [[d|es]|]. }
  rewrite X. unfold bind.
  destruct (is_file (fs w) candidate).
  - unfold ret. cbv beta iota.
    now destruct (_copy_image_to_image_dir cfg candidate w).
  - rewrite locate_unfold.
    destruct (first_hit fnmatch (fs w) (attachment_dir cfg)
                        (candidates (name_of raw))) as [e|[f|]];
      try reflexivity;
      now destruct (_copy_image_to_image_dir cfg f w).
Qed.


Section Kept.
Variable fnmatch : string -> string -> bool.
Variables (cfg : config) (md : path) (tree0 : node).





End Kept.




(** A whole document: [_process_single_markdown] reads the file,
    rewrites both embeds and writes the file back; the picture is
    copied once for each of the two references. *)
Lemma process_rewrites_document_in_place :
  match _process_single_markdown fnmatch_simple cfg post (start tree_post)
  with
  | Ok _ w' =>
      stat (fs w') post
      = Some (File (img_tag "logo.png" "" "" ++ " "
                    ++ img_tag "logo_1.png" (attr "width" "100")
                               (attr "height" "50")))
      /\ lookup (fs w') (image_dir cfg)
         = Some (Dir [("logo.png", File "LOGO"); ("logo_1.png", File "LOGO")])
      /\ out w' = [Processing ["post.md"];
                   Copied "logo.png" "logo.png";
                   Copied "logo.png" "logo_1.png"]
  | Raise _ => False
  end.
Proof. vm_compute. repeat split. Qed.

End RewriteProps.

(* ================================================================== *)
(** ** More on the copy: what holds whenever it returns *)

Module CopyMore.
Import PathLib FS Eff Shutil Sync StrFacts FSFacts PathFacts CopyFacts.
Import Fixtures.

(** Storing a node at a path that is not a directory leaves every
    other file and directory in place. *)
Lemma put_frame (d : path) (x : node) :
  forall root root' : node,
    put d x root = Some root' ->
    (forall es, lookup root d <> Some (Dir es)) ->
    lookup root' d = Some x
    /\ (forall q data, q <> d -> lookup root q = Some (File data) ->
                       lookup root' q = Some (File data))
    /\ (forall q es1, q <> d -> lookup root q = Some (Dir es1) ->
                      exists es2, lookup root' q = Some (Dir es2)).
Proof.
  induction d as [|c d IH]; intros root root' Hput Hnd.
  - simpl in Hput. injection Hput as <-. split; [reflexivity|].
    destruct root as [data0|es0]; [|exfalso; now apply (Hnd es0)].
    split; intros [|k q]; intros; try congruence; discriminate.
  - destruct root as [data0|es0]; [discriminate|].
    simpl in Hput.
    destruct (assoc c es0) as [ch|] eqn:E.
    + destruct (put d x ch) as [ch'|] eqn:Ep; [|discriminate].
      injection Hput as <-.
      assert (Hnd' : forall es, lookup ch d <> Some (Dir es)).
      { intros es H. apply (Hnd es). simpl. now rewrite E. }
      destruct (IH ch ch' Ep Hnd') as [H1 [H2 H3]].
      split; [simpl; now rewrite assoc_set_entry_same|]. split.
      * intros [|k q] data Hq H; simpl in *; [discriminate|].
        destruct (String.eqb_spec c k) as [->|N].
        -- rewrite assoc_set_entry_same. rewrite E in H.
           apply H2; [congruence | assumption].
        -- now rewrite assoc_set_entry_other.
      * intros [|k q] es1 Hq H; simpl in *; [eauto|].
        destruct (String.eqb_spec c k) as [->|N].
        -- rewrite assoc_set_entry_same. rewrite E in H.
           apply (H3 q es1); [congruence | assumption].
        -- rewrite assoc_set_entry_other by assumption. eauto.
    + destruct d as [|c' d]; [|discriminate]. injection Hput as <-.
      split; [simpl; now rewrite assoc_set_entry_same|]. split.
      * intros [|k q] data Hq H; simpl in *; [discriminate|].
        destruct (String.eqb_spec c k) as [->|N].
        -- now rewrite E in H.
        -- now rewrite assoc_set_entry_other.
      * intros [|k q] es1 Hq H; simpl in *; [eauto|].
        destruct (String.eqb_spec c k) as [->|N].
        -- now rewrite E in H.
        -- rewrite assoc_set_entry_other by assumption. eauto.
Qed.

Lemma put_existing (d : path) (x : node) :
  forall (root : node) (old : string),
    lookup root d = Some (File old) ->
    exists root', put d x root = Some root'.
Proof.
  induction d as [|c d IH]; intros root old H; simpl in *; [eauto|].
  destruct root as [data0|es0]; [discriminate|].
  destruct (assoc c es0) as [ch|]; [|discriminate].
  destruct (IH ch old H) as [ch' ->]. eauto.
Qed.

(** What a successful [copyfile] has done. *)
Lemma copyfile_ok (src dst : path) (w w' : world) :
  copyfile src dst w = Ok tt w' ->
  exists s d data,
    walk (fs w) [] src = Some s
    /\ walk (fs w) [] dst = Some d
    /\ lookup (fs w) s = Some (File data)
    /\ (forall es, lookup (fs w) d <> Some (Dir es))
    /\ s <> d
    /\ put d (File data) (fs w) = Some (fs w')
    /\ out w' = out w.
Proof.
  unfold copyfile, bind, get_fs, set_fs, raise, stat. cbv beta iota zeta.
  destruct (walk (fs w) [] src) as [s|];
    [|destruct (walk (fs w) [] dst); discriminate].
  destruct (walk (fs w) [] dst) as [d|];
    [|destruct (lookup (fs w) s) as [[data|es]|]; discriminate].
  destruct (list_eq_dec string_dec s d) as [->|N].
  { destruct (lookup (fs w) d); discriminate. }
  destruct (lookup (fs w) s) as [[data|es]|] eqn:Es; try discriminate.
  destruct (lookup (fs w) d) as [[data'|es']|] eqn:Ed; [|discriminate|];
    intros H; exists s, d, data;
    (split; [reflexivity|]); (split; [reflexivity|]); (split; [exact Es|]);
    (split; [intros es0 X; rewrite Ed in X; discriminate|]);
    (split; [exact N|]);
    (destruct (put d (File data) (fs w)) as [root'|]; [|discriminate]);
    injection H as <-; auto.
Qed.

Lemma copy2_to_free (src tgt : path) (w w' : world) :
  exists_ (fs w) tgt = false ->
  copy2 src tgt w = Ok tt w' ->
  exists data,
    stat (fs w) src = Some (File data)
    /\ stat (fs w') tgt = Some (File data)
    /\ extends (fs w) (fs w')
    /\ out w' = out w.
Proof.
  intros Hfree Hcp. unfold exists_ in Hfree.
  destruct (stat (fs w) tgt) eqn:Et; [discriminate|].
  unfold copy2, bind, get_fs in Hcp. cbv beta iota in Hcp.
  rewrite Et in Hcp.
  destruct (copyfile_ok _ _ _ _ Hcp)
    as [s [d [data [Ws [Wd [Ls [Nd [Nsd [Hput Hout]]]]]]]]].
  assert (Ld : lookup (fs w) d = None)
    by (unfold stat in Et; now rewrite Wd in Et).
  destruct (put_frame d (File data) (fs w) (fs w') Hput Nd)
    as [H1 [H2 H3]].
  assert (Hf : forall q dat, lookup (fs w) q = Some (File dat) ->
                             lookup (fs w') q = Some (File dat))
    by (intros q dat Hq; apply H2; [congruence | assumption]).
  assert (Hd : forall q e1, lookup (fs w) q = Some (Dir e1) ->
                            exists e2, lookup (fs w') q = Some (Dir e2))
    by (intros q e1 Hq; apply (H3 q e1); [congruence | assumption]).
  exists data. split; [|split; [|split]].
  - unfold stat. now rewrite Ws.
  - unfold stat. now rewrite (walk_mono _ _ _ _ _ Hd Wd).
  - now apply frame_stat.
  - assumption.
Qed.

Lemma probe_some (tree : node) (dir : path) (st ext : string)
      (fuel idx : nat) (alt : path) :
  probe tree dir st ext fuel idx = Some alt ->
  exists_ tree alt = false
  /\ exists k, idx <= k
               /\ alt = pjoin dir (st ++ "_" ++ Str.of_nat k ++ ext).
Proof.
  revert idx; induction fuel as [|fuel IH]; intros idx H; [discriminate|].
  cbn [probe] in H.
  destruct (exists_ tree (pjoin dir (st ++ "_" ++ Str.of_nat idx ++ ext)))
    eqn:E.
  - destruct (IH _ H) as [H1 [k [Hk H2]]]. split; [assumption|].
    exists k. split; [lia | assumption].
  - injection H as <-. split; [assumption|]. exists idx. auto.
Qed.

(** Whenever the copy returns: the source is a regular file; the
    path returned did not exist and now holds the bytes of the source;
    it is the base name of the source in the output directory, or a
    numbered form of it; every regular file that existed is still
    there with its bytes; one line is printed. *)
Lemma copy_returns (cfg : config) (src p : path) (w w' : world) :
  _copy_image_to_image_dir cfg src w = Ok p w' ->
  exists data,
    stat (fs w) src = Some (File data)
    /\ exists_ (fs w) p = false
    /\ stat (fs w') p = Some (File data)
    /\ extends (fs w) (fs w')
    /\ out w' = (out w ++ [Copied (pname src) (pname p)])%list
    /\ (p = pjoin (image_dir cfg) (pname src)
        \/ exists k,
            1 <= k
            /\ p = pjoin (image_dir cfg)
                         (numbered (pname (pjoin (image_dir cfg) (pname src)))
                                   k)).
Proof.
  unfold _copy_image_to_image_dir, bind, get_fs, print, ret, raise.
  cbv beta iota.
  set (dst := pjoin (image_dir cfg) (pname src)).
  destruct (exists_ (fs w) dst) eqn:Ex; cbn [negb].
  - destruct (probe (fs w) (image_dir cfg) (stem (pname dst))
                    (suffix (pname dst)) (probe_fuel (fs w) (image_dir cfg))
                    1) as [alt|] eqn:Ep; [|discriminate].
    destruct (probe_some _ _ _ _ _ _ _ Ep) as [Hfree [k [Hk Ealt]]].
    destruct (copy2 src alt w) as [[] w1|e] eqn:Ec; [|discriminate].
    intros H. injection H as <- <-.
    destruct (copy2_to_free _ _ _ _ Hfree Ec) as [data [H1 [H2 [H3 H4]]]].
    exists data. simpl. rewrite H4. repeat split; auto.
    right. exists k. split; [assumption|]. exact Ealt.
  - destruct (copy2 src dst w) as [[] w1|e] eqn:Ec; [|discriminate].
    intros H. injection H as <- <-.
    destruct (copy2_to_free _ _ _ _ Ex Ec) as [data [H1 [H2 [H3 H4]]]].
    exists data. simpl. rewrite H4. repeat split; auto.
Qed.

(** Whenever the copy returns it has made one new regular file with
    the bytes of the source, under the base name of the source or a
    numbered form of it, and has left every existing regular file as
    it was. *)
Theorem copy_postcondition (cfg : config) (src p : path) (w w' : world) :
  _copy_image_to_image_dir cfg src w = Ok p w' ->
  exists data,
    stat (fs w) src = Some (File data)
    /\ exists_ (fs w) p = false
    /\ stat (fs w') p = Some (File data)
    /\ extends (fs w) (fs w')
    /\ out w' = (out w ++ [Copied (pname src) (pname p)])%list
    /\ (p = pjoin (image_dir cfg) (pname src)
        \/ exists k,
            1 <= k
            /\ p = pjoin (image_dir cfg)
                         (numbered (pname (pjoin (image_dir cfg) (pname src)))
                                   k)).
Proof. apply copy_returns. Qed.

Lemma copy_postcondition_witness :
  exists data,
    stat tree_logo logo_src = Some (File data)
    /\ exists_ tree_logo ["content"; "image"; "logo.png"] = false
    /\ data = "LOGO".
Proof.
  destruct (copy_postcondition
              cfg logo_src ["content"; "image"; "logo.png"]
              (start tree_logo) world_logo_copied eq_refl) as [data [H1 [H2 _]]].
  exists data. split; [exact H1|]. split; [exact H2|].
  vm_compute in H1. now injection H1 as <-.
Defined.

Lemma copy2_of_directory (w : world) (src : path) es0
      (dir : path) es (k : string) :
  ~ In ".." dir -> lookup (fs w) dir = Some (Dir es) ->
  k <> "" -> k <> ".." ->
  exists_ (fs w) (pjoin dir k) = false ->
  stat (fs w) src = Some (Dir es0) ->
  copy2 src (pjoin dir k) w = Raise IsADirectoryError.
Proof.
  intros Hc Hl Hk Hk' Hfree Hsrc. unfold exists_ in Hfree.
  destruct (stat (fs w) (pjoin dir k)) eqn:Hdst; [discriminate|].
  unfold copy2, copyfile, bind, get_fs, raise. cbv beta iota zeta.
  rewrite Hdst. rewrite pjoin_nonempty in * by assumption.
  assert (Ewd : walk (fs w) [] (dir ++ [k])%list = Some (dir ++ [k])%list).
  { apply (walk_clean_some (fs w) (dir ++ [k])%list []).
    - now apply not_in_app_single.
    - now destruct dir.
    - simpl. rewrite removelast_last. eauto. }
  assert (Hnone : lookup (fs w) (dir ++ [k])%list = None)
    by (unfold stat in Hdst; now rewrite Ewd in Hdst).
  rewrite Hsrc. unfold stat in Hsrc.
  destruct (walk (fs w) [] src) as [s|]; [|discriminate].
  rewrite Ewd.
  destruct (list_eq_dec string_dec s (dir ++ [k])%list) as [->|_];
    [congruence|reflexivity].
Qed.

Lemma copy_of_directory_raises
      (cfg : config) (w : world) (src : path) es es0 :
  ~ In ".." (target_dir cfg) ->
  lookup (fs w) (image_dir cfg) = Some (Dir es) ->
  stat (fs w) src = Some (Dir es0) ->
  _copy_image_to_image_dir cfg src w = Raise IsADirectoryError.
Proof.
  intros Hc Hdir Hsrc. pose proof (image_dir_clean cfg Hc) as Hic.
  unfold _copy_image_to_image_dir, bind, get_fs, print, ret, raise.
  cbv beta iota.
  set (dst := pjoin (image_dir cfg) (pname src)).
  destruct (exists_ (fs w) dst) eqn:Ex; cbn [negb].
  - set (name := pname dst).
    destruct (unused_number (fs w) (image_dir cfg) es name Hic Hdir 1)
      as [k0 Hk0].
    destruct (probe_spec (fs w) (image_dir cfg) name
                         (S (List.length es)) 1)
      as [k [Hp [_ [Hun _]]]]; [eauto|].
    unfold probe_fuel. rewrite stat_clean, Hdir by assumption.
    rewrite Hp.
    rewrite (copy2_of_directory w src es0 (image_dir cfg) es
                                (numbered name k));
      auto using numbered_not_empty, numbered_not_dotdot.
  - assert (Hne : pname src <> "").
    { intros E. unfold dst, pjoin in Ex. rewrite E in Ex. simpl in Ex.
      unfold exists_ in Ex. rewrite stat_clean, Hdir in Ex by assumption.
      discriminate. }
    assert (Hnd : pname src <> "..").
    { intros E. unfold dst in Ex.
      rewrite pjoin_nonempty, E in Ex by assumption.
      rewrite (exists_dotdot _ _ es) in Ex by assumption. discriminate. }
    unfold dst.
    now rewrite (copy2_of_directory w src es0 (image_dir cfg) es (pname src)).
Qed.

(** A directory cannot be materialized: the copy raises
    [IsADirectoryError], whether or not its name is taken. *)
Theorem copy_of_directory_fails
        (cfg : config) (w : world) (src : path) es es0 :
  ~ In ".." (target_dir cfg) ->
  lookup (fs w) (image_dir cfg) = Some (Dir es) ->
  stat (fs w) src = Some (Dir es0) ->
  _copy_image_to_image_dir cfg src w = Raise IsADirectoryError.
Proof. apply copy_of_directory_raises. Qed.

Lemma copy_of_directory_fails_witness :
  _copy_image_to_image_dir cfg ["vault"; "attachment"; "logo"]
                           (start tree_folder)
  = Raise IsADirectoryError.
Proof.
  apply (copy_of_directory_fails
           cfg (start tree_folder) ["vault"; "attachment"; "logo"]
           [] [("logo.png", File "LOGO")]).
  - simpl. intros [H|[]]. discriminate.
  - reflexivity.
  - reflexivity.
Defined.

Lemma copy_terminates_witness :
  _copy_image_to_image_dir cfg (pic "b") (start tree_taken)
  <> Raise LoopExhausted.
Proof.
  apply (copy_terminates cfg).
  simpl. intros [H|[]]. discriminate.
Defined.

End CopyMore.

(* ================================================================== *)
(** ** More on the locator *)

Module LocateMore.
Import PathLib FS Eff Sync StrFacts FSFacts PathFacts CopyFacts.
Import LocateFacts CopyMore Fixtures.

(** *** Names and suffixes *)

Lemma split_nonempty (c : ascii) (s : string) : Str.split c s <> [].
Proof.
  induction s as [|a s IH]; simpl; [discriminate|].
  destruct (Ascii.eqb a c); [discriminate|].
  destruct (Str.split c s); [contradiction | discriminate].
Qed.

Lemma split_app_sep (c : ascii) (a b : string) :
  Str.split c (a ++ String c b) = (Str.split c a ++ Str.split c b)%list.
Proof.
  induction a as [|x a IH]; simpl.
  - now rewrite Ascii.eqb_refl.
  - destruct (Ascii.eqb x c); [now rewrite IH|].
    rewrite IH. pose proof (split_nonempty c a) as N.
    destruct (Str.split c a); [contradiction | reflexivity].
Qed.

Lemma split_no_sep (c : ascii) (s : string) :
  Str.contains c s = false -> Str.split c s = [s].
Proof.
  induction s as [|a s IH]; simpl; intros H; [reflexivity|].
  apply orb_false_iff in H as [Ha H]. rewrite Ha, (IH H). reflexivity.
Qed.

(** Of a token with directories only the last component counts. *)
Lemma name_of_last (pre name : string) :
  Str.contains "/" name = false -> name <> "" -> name <> "." ->
  name_of (pre ++ "/" ++ name) = name.
Proof.
  intros Hs Hne Hnd. unfold name_of, parts.
  change (pre ++ "/" ++ name) with (pre ++ String "/" name).
  rewrite split_app_sep, (split_no_sep _ _ Hs), filter_app. simpl.
  apply String.eqb_neq in Hne, Hnd. rewrite Hne, Hnd. simpl.
  apply last_last.
Qed.

Lemma name_of_plain (name : string) :
  Str.contains "/" name = false -> name <> "" -> name <> "." ->
  name_of name = name.
Proof.
  intros Hs Hne Hnd. unfold name_of, parts.
  rewrite (split_no_sep _ _ Hs). simpl.
  apply String.eqb_neq in Hne, Hnd. now rewrite Hne, Hnd.
Qed.

Lemma rfind_none (c : ascii) (s : string) :
  Str.contains c s = false -> Str.rfind c s = None.
Proof.
  induction s as [|a s IH]; simpl; intros H; [reflexivity|].
  apply orb_false_iff in H as [Ha H]. now rewrite (IH H), Ha.
Qed.

Lemma rfind_last (c : ascii) (a b : string) :
  Str.contains c b = false ->
  Str.rfind c (a ++ String c b) = Some (String.length a).
Proof.
  intros H. induction a as [|x a IH]; simpl.
  - now rewrite (rfind_none _ _ H), Ascii.eqb_refl.
  - now rewrite IH.
Qed.

Lemma substring_skip (a b : string) (n : nat) :
  substring (String.length a) n (a ++ b) = substring 0 n b.
Proof. induction a as [|x a IH]; simpl; [reflexivity | assumption]. Qed.

Lemma substring_all (s : string) : substring 0 (String.length s) s = s.
Proof. induction s as [|x s IH]; simpl; congruence. Qed.

Lemma substring_prefix (a b : string) :
  substring 0 (String.length a) (a ++ b) = a.
Proof.
  induction a as [|x a IH]; simpl; [|congruence]. now destruct b.
Qed.

(** The stem and the suffix of [stem.ext]. *)
Lemma dotted_name (st ext : string) :
  st <> "" -> ext <> "" -> Str.contains "." ext = false ->
  suffix (st ++ "." ++ ext) = "." ++ ext
  /\ stem (st ++ "." ++ ext) = st.
Proof.
  intros Hst Hext Hd. unfold suffix, stem.
  change (st ++ "." ++ ext) with (st ++ String "." ext).
  rewrite (rfind_last _ st ext Hd).
  assert (L : String.length (st ++ String "." ext)
              = String.length st + S (String.length ext))
    by now rewrite length_append.
  assert (P : ((0 <? String.length st)
               && (String.length st
                   <? String.length (st ++ String "." ext) - 1))%nat = true).
  { apply andb_true_intro. split; apply Nat.ltb_lt.
    - destruct st; [congruence | simpl; lia].
    - rewrite L. destruct ext; [congruence | simpl; lia]. }
  rewrite P. split.
  - rewrite substring_skip, L.
    replace (String.length st + S (String.length ext) - String.length st)
      with (String.length (String "." ext)) by (simpl; lia).
    apply substring_all.
  - apply substring_prefix.
Qed.

Lemma stem_of_suffixless (name : string) :
  (forall i, 0 < i < String.length name - 1 ->
             String.get i name <> Some "."%char) ->
  stem name = name.
Proof.
  intros H. pose proof (stem_suffix name) as E.
  rewrite (suffix_empty _ H), append_nil_r in E. exact E.
Qed.

(** A token that already ends in an extension is tried as it is and
    in no other form. *)
Theorem token_with_extension_is_sole_candidate (token st ext : string) :
  name_of token = st ++ "." ++ ext ->
  st <> "" -> ext <> "" -> Str.contains "." ext = false ->
  candidates token = [st ++ "." ++ ext].
Proof.
  intros E Hst Hext Hd. unfold candidates. rewrite E.
  destruct (dotted_name st ext Hst Hext Hd) as [-> _]. reflexivity.
Qed.

Lemma token_with_extension_is_sole_candidate_witness :
  candidates "notes/shot.2024.png" = ["shot.2024.png"].
Proof.
  apply (token_with_extension_is_sole_candidate
           "notes/shot.2024.png" "shot.2024" "png");
    (reflexivity || discriminate).
Defined.

(** The directories written in a token play no part: the locator
    searches for the last component alone. *)
Theorem token_directory_is_ignored
        (fnmatch : string -> string -> bool) (cfg : config) (w : world)
        (pre name : string) :
  Str.contains "/" name = false -> name <> "" -> name <> "." ->
  candidates (pre ++ "/" ++ name) = candidates name
  /\ _locate_image_by_token fnmatch cfg (pre ++ "/" ++ name) w
     = _locate_image_by_token fnmatch cfg name w.
Proof.
  intros Hs Hne Hnd.
  assert (E : candidates (pre ++ "/" ++ name) = candidates name).
  { unfold candidates.
    now rewrite (name_of_last pre name Hs Hne Hnd),
                (name_of_plain name Hs Hne Hnd). }
  split; [exact E|]. unfold _locate_image_by_token. now rewrite E.
Qed.

Lemma token_directory_is_ignored_witness :
  _locate_image_by_token fnmatch_simple cfg "elsewhere/deep/logo.png"
                         (start tree_logo)
  = Ok (Some logo_src) (start tree_logo).
Proof.
  pose proof (proj2 (token_directory_is_ignored
                       fnmatch_simple cfg (start tree_logo)
                       "elsewhere/deep" "logo.png" eq_refl
                       ltac:(discriminate) ltac:(discriminate))) as H.
  change ("elsewhere/deep" ++ "/" ++ "logo.png")
    with "elsewhere/deep/logo.png" in H.
  rewrite H. reflexivity.
Defined.

(** The numbered name keeps the extension: the number goes before the
    last dot, or at the end of a name without one. *)
Theorem numbered_name_shape (k : nat) :
  (forall st ext,
      st <> "" -> ext <> "" -> Str.contains "." ext = false ->
      numbered (st ++ "." ++ ext) k
      = st ++ "_" ++ Str.of_nat k ++ "." ++ ext)
  /\ (forall name,
        (forall i, 0 < i < String.length name - 1 ->
                   String.get i name <> Some "."%char) ->
        numbered name k = name ++ "_" ++ Str.of_nat k).
Proof.
  split.
  - intros st ext Hst Hext Hd. unfold numbered.
    now destruct (dotted_name st ext Hst Hext Hd) as [-> ->].
  - intros name H. unfold numbered.
    rewrite (stem_of_suffixless _ H), (suffix_empty _ H).
    now rewrite append_nil_r.
Qed.

Lemma numbered_name_shape_witness :
  numbered "archive.tar.gz" 12 = "archive.tar_12.gz"
  /\ numbered ".hidden" 3 = ".hidden_3".
Proof.
  split.
  - apply (proj1 (numbered_name_shape 12) "archive.tar" "gz");
      (reflexivity || discriminate).
  - apply (proj2 (numbered_name_shape 3) ".hidden").
    intros i Hi. simpl in Hi.
    do 6 (destruct i as [|i]; [simpl; try discriminate; lia|]). lia.
Defined.

Lemma stat_under_missing (tree : node) (dir : path) (c : string) :
  stat tree dir = None -> stat tree (dir ++ [c])%list = None.
Proof.
  unfold stat. rewrite walk_app.
  destruct (walk tree [] dir) as [q|]; [|reflexivity].
  intros H. simpl. rewrite H. reflexivity.
Qed.

Lemma first_hit_exists (fnmatch : string -> string -> bool)
      (tree : node) (root : path) (cands : list string) (p : path) :
  first_hit fnmatch tree root cands = inr (Some p) -> exists_ tree p = true.
Proof.
  induction cands as [|c cands IH]; simpl; intros H; [discriminate|].
  destruct (exists_ tree (pjoin root c)) eqn:Ed.
  - now injection H as <-.
  - destruct (rglob fnmatch tree root c) as [e|yielded]; [discriminate|].
    destruct (find (exists_ tree) yielded) as [f|] eqn:Ef; [|auto].
    injection H as <-. now apply find_some in Ef.
Qed.

Lemma first_hit_missing_root (fnmatch : string -> string -> bool)
      (tree : node) (root : path) (cands : list string) :
  stat tree root = None ->
  first_hit fnmatch tree root cands
  = if existsb invalid_pattern cands then inl ValueError else inr None.
Proof.
  intros H. induction cands as [|c cands IH]; simpl; [reflexivity|].
  assert (Ed : exists_ tree (pjoin root c) = false).
  { unfold exists_, pjoin. destruct (c =? "").
    - now rewrite H.
    - now rewrite (stat_under_missing _ _ _ H). }
  rewrite Ed. unfold rglob, invalid_pattern, select. rewrite H.
  destruct (c =? "**"); [exact IH|].
  destruct (Str.occurs2 "*" "*" c); [reflexivity|exact IH].
Qed.

(** The locator returns a path only if that path exists.  With the
    attachment root missing it finds nothing, whatever the token: it
    returns [None], or raises the [ValueError] of [Path.rglob] when a
    candidate of the token holds [**] and is not [**] itself. *)
Theorem locate_edges
        (fnmatch : string -> string -> bool) (cfg : config) (w : world)
        (token : string) :
  (forall p,
      _locate_image_by_token fnmatch cfg token w = Ok (Some p) w ->
      exists_ (fs w) p = true)
  /\ (stat (fs w) (attachment_dir cfg) = None ->
      _locate_image_by_token fnmatch cfg token w
      = if existsb invalid_pattern (candidates token)
        then Raise ValueError else Ok None w).
Proof.
  assert (U : _locate_image_by_token fnmatch cfg token w
              = match first_hit fnmatch (fs w) (attachment_dir cfg)
                                (candidates token) with
                | inl e => Raise e
                | inr r => Ok r w
                end).
  { unfold _locate_image_by_token, bind, get_fs, ret, raise.
    cbv beta iota.
    now destruct (first_hit fnmatch (fs w) (attachment_dir cfg)
                            (candidates token)). }
  rewrite U. split.
  - intros p H.
    apply (first_hit_exists fnmatch (fs w) (attachment_dir cfg)
                            (candidates token)).
    destruct (first_hit fnmatch (fs w) (attachment_dir cfg)
                        (candidates token)); congruence.
  - intros H. rewrite first_hit_missing_root by assumption.
    now destruct (existsb invalid_pattern (candidates token)).
Qed.

Lemma locate_edges_witness :
  exists_ tree_logo logo_src = true
  /\ _locate_image_by_token fnmatch_simple cfg "logo" (start tree_bare)
     = Ok None (start tree_bare)
  /\ _locate_image_by_token fnmatch_simple cfg "a**b" (start tree_bare)
     = Raise ValueError.
Proof.
  split; [|split].
  - apply (proj1 (locate_edges fnmatch_simple cfg (start tree_logo) "logo")).
    reflexivity.
  - apply (proj2 (locate_edges fnmatch_simple cfg (start tree_bare)
                               "logo")).
    reflexivity.
  - apply (proj2 (locate_edges fnmatch_simple cfg (start tree_bare)
                               "a**b")).
    reflexivity.
Defined.

End LocateMore.

(* ================================================================== *)
(** ** More on the rewriter *)

Module RewriteMore.
Import PathLib FS Eff Shutil Re Sync.
Import StrFacts FSFacts PathFacts CopyFacts LocateFacts RewriteFacts.
Import RewriteProps CopyMore LocateMore Fixtures.

(** The embed pattern matches exactly the texts [![[token]]] and
    [![[token|parameter]]]: the token is not empty and has no pipe and
    no closing bracket, the parameter is not empty and has no closing
    bracket; groups 1 and 2 are the token and the parameter with its
    pipe. *)
Theorem embed_pattern_shape :
  (forall tok rest,
      tok <> "" -> Str.all not_pipe_rbracket tok = true ->
      match_embed ("![[" ++ tok ++ "]]" ++ rest)
      = Some ({| e_all := "![[" ++ tok ++ "]]"; e_token := tok;
                 e_param := None |}, rest))
  /\ (forall tok par rest,
        tok <> "" -> Str.all not_pipe_rbracket tok = true ->
        par <> "" -> Str.all not_rbracket par = true ->
        match_embed ("![[" ++ tok ++ "|" ++ par ++ "]]" ++ rest)
        = Some ({| e_all := "![[" ++ tok ++ "|" ++ par ++ "]]";
                   e_token := tok; e_param := Some ("|" ++ par) |}, rest))
  /\ (forall s m rest,
        match_embed s = Some (m, rest) ->
        s = e_all m ++ rest
        /\ e_token m <> ""
        /\ Str.all not_pipe_rbracket (e_token m) = true
        /\ ((e_param m = None /\ e_all m = "![[" ++ e_token m ++ "]]")
            \/ exists par,
                par <> "" /\ Str.all not_rbracket par = true
                /\ e_param m = Some ("|" ++ par)
                /\ e_all m = "![[" ++ e_token m ++ "|" ++ par ++ "]]")).
Proof.
  split; [|split].
  - intros tok rest Hne Ht. unfold match_embed.
    change ("![[" ++ tok ++ "]]" ++ rest)
      with ("![[" ++ (tok ++ "]]" ++ rest)).
    rewrite drop_prefix_app.
    rewrite (span_app not_pipe_rbracket tok ("]]" ++ rest) Ht eq_refl).
    rewrite eqb_empty_false by assumption.
    now rewrite drop_prefix_app.
  - intros tok par rest Hne Ht Hp Hpar. unfold match_embed.
    change ("![[" ++ tok ++ "|" ++ par ++ "]]" ++ rest)
      with ("![[" ++ (tok ++ String "|" (par ++ "]]" ++ rest))).
    rewrite drop_prefix_app.
    rewrite (span_app not_pipe_rbracket tok
                      (String "|" (par ++ "]]" ++ rest)) Ht eq_refl).
    rewrite eqb_empty_false by assumption.
    replace (Str.drop_prefix "]]" (String "|" (par ++ "]]" ++ rest)))
      with (@None string) by reflexivity.
    cbv beta iota.
    rewrite (span_app not_rbracket par ("]]" ++ rest) Hpar eq_refl).
    rewrite eqb_empty_false by assumption.
    now rewrite drop_prefix_app.
  - intros s m rest H. split; [now apply match_embed_sound|].
    unfold match_embed in H.
    destruct (Str.drop_prefix "![[" s) as [s1|]; [|discriminate].
    destruct (Str.span not_pipe_rbracket s1) as [tok s2] eqn:E2.
    pose proof (span_all _ _ _ _ E2) as At.
    destruct (tok =? "") eqn:Ene; [discriminate|].
    apply String.eqb_neq in Ene.
    destruct (Str.drop_prefix "]]" s2) as [r|].
    + injection H as <- _. simpl. repeat split; auto.
    + destruct s2 as [|c s3]; [discriminate|].
      destruct (Ascii.eqb_spec c "|"%char) as [->|N].
      2:{ destruct c as [[] [] [] [] [] [] [] []]; try discriminate.
          congruence. }
      destruct (Str.span not_rbracket s3) as [par s4] eqn:E4.
      pose proof (span_all _ _ _ _ E4) as Ap.
      destruct (par =? "") eqn:Epe; [discriminate|].
      apply String.eqb_neq in Epe.
      destruct (Str.drop_prefix "]]" s4) as [r|]; [|discriminate].
      injection H as <- _. simpl. split; [assumption|].
      split; [assumption|]. right. exists par. repeat split; auto.
Qed.

(** The standard pattern matches exactly the texts [![alt](path)]:
    the alternative text has no closing bracket, the path is not
    empty and has no closing parenthesis; group 1 is the path. *)
Theorem standard_pattern_shape :
  (forall alt pth rest,
      Str.all not_rbracket alt = true ->
      pth <> "" -> Str.all not_rparen pth = true ->
      match_std ("![" ++ alt ++ "](" ++ pth ++ ")" ++ rest)
      = Some ({| s_all := "![" ++ alt ++ "](" ++ pth ++ ")";
                 s_path := pth |}, rest))
  /\ (forall s m rest,
        match_std s = Some (m, rest) ->
        s = s_all m ++ rest
        /\ s_path m <> ""
        /\ Str.all not_rparen (s_path m) = true
        /\ exists alt,
            Str.all not_rbracket alt = true
            /\ s_all m = "![" ++ alt ++ "](" ++ s_path m ++ ")").
Proof.
  split.
  - intros alt pth rest Ha Hne Hp. unfold match_std.
    change ("![" ++ alt ++ "](" ++ pth ++ ")" ++ rest)
      with ("![" ++ (alt ++ "](" ++ (pth ++ ")" ++ rest))).
    rewrite drop_prefix_app.
    rewrite (span_app not_rbracket alt ("](" ++ (pth ++ ")" ++ rest))
                      Ha eq_refl).
    rewrite drop_prefix_app.
    rewrite (span_app not_rparen pth (")" ++ rest) Hp eq_refl).
    rewrite eqb_empty_false by assumption.
    now rewrite drop_prefix_app.
  - intros s m rest H. split; [now apply match_std_sound|].
    unfold match_std in H.
    destruct (Str.drop_prefix "![" s) as [s1|]; [|discriminate].
    destruct (Str.span not_rbracket s1) as [alt s2] eqn:E2.
    pose proof (span_all _ _ _ _ E2) as Aa.
    destruct (Str.drop_prefix "](" s2) as [s3|]; [|discriminate].
    destruct (Str.span not_rparen s3) as [pth s4] eqn:E4.
    pose proof (span_all _ _ _ _ E4) as Ap.
    destruct (pth =? "") eqn:Epe; [discriminate|].
    apply String.eqb_neq in Epe.
    destruct (Str.drop_prefix ")" s4) as [r|]; [|discriminate].
    injection H as <- _. simpl. split; [assumption|].
    split; [assumption|]. exists alt. auto.
Qed.


Lemma embed_pattern_shape_witness :
  match_embed "![[a b|wide]] tail"
  = Some ({| e_all := "![[a b|wide]]"; e_token := "a b";
             e_param := Some "|wide" |}, " tail")
  /\ match_embed "![[a b]] tail"
     = Some ({| e_all := "![[a b]]"; e_token := "a b"; e_param := None |},
             " tail")
  /\ e_token nope_embed <> "".
Proof.
  destruct embed_pattern_shape as [A [B C]]. split; [|split].
  - apply (B "a b" "wide" " tail"); (reflexivity || discriminate).
  - apply (A "a b" " tail"); (reflexivity || discriminate).
  - apply (C "![[nope]]" nope_embed "" eq_refl).
Defined.

Lemma standard_pattern_shape_witness :
  match_std "![a [b](c d) e"
  = Some ({| s_all := "![a [b](c d)"; s_path := "c d" |}, " e")
  /\ s_path nope_std <> "".
Proof.
  destruct standard_pattern_shape as [A B]. split.
  - apply (A "a [b" "c d" " e"); (reflexivity || discriminate).
  - apply (B "![x](nope.png)" nope_std "" eq_refl).
Defined.


(** *** Texts around a reference *)

Lemma contains_false_occurs2 (a b : ascii) (s : string) :
  Str.contains a s = false -> Str.occurs2 a b s = false.
Proof.
  induction s as [|c s IH]; simpl; intros H; [reflexivity|].
  apply orb_false_iff in H as [Hc H]. rewrite Hc, (IH H).
  now destruct s.
Qed.

Lemma occurs2_app_tail (a b : ascii) (x y : string) :
  Str.contains a y = false ->
  match y with String c _ => Ascii.eqb c b = false | EmptyString => True end ->
  Str.occurs2 a b (x ++ y) = Str.occurs2 a b x.
Proof.
  intros Hy Hb. induction x as [|c x IH].
  - simpl. now apply contains_false_occurs2.
  - change (String c x ++ y) with (String c (x ++ y)).
    cbn [Str.occurs2]. rewrite IH.
    destruct x as [|d x]; [|reflexivity]. simpl.
    destruct y as [|e y]; [reflexivity|].
    rewrite Hb. now rewrite andb_false_r.
Qed.

Lemma no_bang_start (c : ascii) (s : string) :
  Ascii.eqb c "!" = false -> starts_bang (String c s) = false.
Proof.
  intros H. destruct c as [[] [] [] [] [] [] [] []];
    try reflexivity; discriminate.
Qed.

(** A text without [!] in front of a position is passed through. *)
Lemma sub_from_skip {T : Type} (matcher : string -> option (T * string))
      (repl : T -> M string) :
  (forall s, starts_bang s = false -> matcher s = None) ->
  forall (pre s : string) (n : nat) (w : world),
    Str.contains "!" pre = false ->
    sub_from matcher repl (String.length pre + n) (pre ++ s) w
    = (t <- sub_from matcher repl n s ;; ret (pre ++ t)) w.
Proof.
  intros Hm. induction pre as [|c pre IH]; intros s n w H.
  - simpl. unfold bind, ret.
    now destruct (sub_from matcher repl n s w).
  - simpl in H. apply orb_false_iff in H as [Hc H].
    change (String.length (String c pre) + n)
      with (S (String.length pre + n)).
    change (String c pre ++ s) with (String c (pre ++ s)).
    cbn [sub_from]. rewrite (Hm _ (no_bang_start c (pre ++ s) Hc)).
    unfold bind at 1. rewrite (IH s n w H). unfold bind, ret.
    now destruct (sub_from matcher repl n s w).
Qed.

(** *** What the rewriter leaves alone *)

Lemma extends_refl (tree : node) : extends tree tree.
Proof. intros p d H. exact H. Qed.

Lemma extends_trans (a b c : node) :
  extends a b -> extends b c -> extends a c.
Proof. intros H1 H2 p d H. apply H2, H1, H. Qed.

Lemma grows_refl (w : world) : grows w w.
Proof. split; [apply extends_refl|]. exists []. now rewrite app_nil_r. Qed.

Lemma grows_trans (a b c : world) : grows a b -> grows b c -> grows a c.
Proof.
  intros [E1 [l1 O1]] [E2 [l2 O2]]. split; [eapply extends_trans; eauto|].
  exists (l1 ++ l2)%list. now rewrite O2, O1, app_assoc.
Qed.

Lemma copy_grows (cfg : config) (src p : path) (w w' : world) :
  _copy_image_to_image_dir cfg src w = Ok p w' -> grows w w'.
Proof.
  intros H. destruct (copy_returns _ _ _ _ _ H) as [d [_ [_ [_ [E [O _]]]]]].
  split; [exact E|]. eauto.
Qed.

Lemma repl_obsidian_grows fnmatch cfg (m : ematch) (w w' : world) r :
  repl_obsidian fnmatch cfg m w = Ok r w' -> grows w w'.
Proof.
  rewrite repl_obsidian_unfold.
  destruct (first_hit fnmatch (fs w) (attachment_dir cfg)
                      (candidates (Str.strip (e_token m)))) as [e|[f|]];
    [discriminate| |].
  - destruct (_copy_image_to_image_dir cfg f w) as [copied w1|e] eqn:Ec;
      [|discriminate].
    intros H. injection H as _ <-. eapply copy_grows; eauto.
  - intros H. injection H as _ <-. split; [apply extends_refl|].
    simpl. eauto.
Qed.

Lemma replace_md_img_grows fnmatch cfg md (m : smatch) (w w' : world) r :
  replace_md_img fnmatch cfg md m w = Ok r w' -> grows w w'.
Proof.
  rewrite replace_md_img_unfold.
  destruct (guarded (Str.strip (s_path m))).
  { intros H. injection H as _ <-. apply grows_refl. }
  destruct (if is_file (fs w)
                       (resolve_from (parent md) (Str.strip (s_path m)))
            then inr (Some (resolve_from (parent md)
                                         (Str.strip (s_path m))))
            else first_hit fnmatch (fs w) (attachment_dir cfg)
                           (candidates (name_of (Str.strip (s_path m)))))
    as [e|[f|]]; [discriminate| |].
  - destruct (_copy_image_to_image_dir cfg f w) as [copied w1|e] eqn:Ec;
      [|discriminate].
    intros H. injection H as _ <-. eapply copy_grows; eauto.
  - intros H. injection H as _ <-. apply grows_refl.
Qed.

Lemma sub_from_grows {T : Type} (matcher : string -> option (T * string))
      (repl : T -> M string) :
  (forall m w r w', repl m w = Ok r w' -> grows w w') ->
  forall (fuel : nat) (s t : string) (w w' : world),
    sub_from matcher repl fuel s w = Ok t w' -> grows w w'.
Proof.
  intros Hr. induction fuel as [|fuel IH]; intros s t w w' H.
  - injection H as _ <-. apply grows_refl.
  - simpl in H. destruct (matcher s) as [[m rest]|].
    + unfold bind in H. destruct (repl m w) as [r w1|e] eqn:Er;
        [|discriminate].
      destruct (sub_from matcher repl fuel rest w1) as [t1 w2|e] eqn:Es;
        [|discriminate].
      injection H as _ <-.
      eapply grows_trans; [eapply Hr; eauto | eapply IH; eauto].
    + destruct s as [|c s].
      * injection H as _ <-. apply grows_refl.
      * unfold bind in H.
        destruct (sub_from matcher repl fuel s w) as [t1 w2|e] eqn:Es;
          [|discriminate].
        injection H as _ <-. eapply IH; eauto.
Qed.

Lemma rewrite_grows fnmatch cfg md (s t : string) (w w' : world) :
  rewrite fnmatch cfg md s w = Ok t w' -> grows w w'.
Proof.
  unfold rewrite, re_sub, bind.
  destruct (sub_from match_embed (repl_obsidian fnmatch cfg)
                     (String.length s) s w) as [s1 w1|e] eqn:E1;
    [|discriminate].
  intros E2. eapply grows_trans.
  - eapply (sub_from_grows match_embed); [|exact E1].
    intros m w0 r w0'. apply repl_obsidian_grows.
  - eapply (sub_from_grows match_std); [|exact E2].
    intros m w0 r w0'. apply replace_md_img_grows.
Qed.

(** Whatever the text: when the rewriter returns, every regular file
    that existed is still there with the same bytes, and what had been
    printed is still the beginning of the output. *)
Theorem rewrite_keeps_existing_files
        (fnmatch : string -> string -> bool) (cfg : config) (md : path)
        (s t : string) (w w' : world) :
  rewrite fnmatch cfg md s w = Ok t w' ->
  extends (fs w) (fs w')
  /\ exists ls, out w' = (out w ++ ls)%list.
Proof. apply rewrite_grows. Qed.

Lemma rewrite_keeps_existing_files_witness :
  extends tree_logo (fs world_logo_copied)
  /\ exists ls, out world_logo_copied = ([] ++ ls)%list.
Proof.
  apply (rewrite_keeps_existing_files
           fnmatch_simple cfg post "![[logo]]" (img_tag "logo.png" "" "")
           (start tree_logo) world_logo_copied).
  reflexivity.
Defined.

(** *** Nothing to find *)

Lemma embed_pass_without_root fnmatch cfg (tree : node) :
  stat tree (attachment_dir cfg) = None ->
  forall (fuel : nat) (s : string) (o : list line),
    sub_from match_embed (repl_obsidian fnmatch cfg) fuel s
             {| fs := tree; out := o |}
    = if existsb (fun m => existsb invalid_pattern
                                   (candidates (Str.strip (e_token m))))
                 (matches_from match_embed fuel s)
      then Raise ValueError
      else Ok s {| fs := tree;
                   out := (o ++ map (fun m => NotFound (Str.strip (e_token m)))
                                    (matches_from match_embed fuel s))%list |}.
Proof.
  intros Hroot.
  set (bad := fun m => existsb invalid_pattern
                               (candidates (Str.strip (e_token m)))).
  set (nf := fun m => NotFound (Str.strip (e_token m))).
  induction fuel as [|fuel IH]; intros s o.
  - cbn [sub_from matches_from existsb map]. now rewrite app_nil_r.
  - cbn [sub_from matches_from].
    destruct (match_embed s) as [[m rest]|] eqn:Em.
    + pose proof (match_embed_sound _ _ _ Em) as Es.
      unfold bind at 1. rewrite repl_obsidian_unfold. cbn [fs out].
      rewrite (first_hit_missing_root fnmatch tree _ _ Hroot).
      change (existsb bad (m :: matches_from match_embed fuel rest))
        with (bad m || existsb bad (matches_from match_embed fuel rest)).
      change (map nf (m :: matches_from match_embed fuel rest))
        with (nf m :: map nf (matches_from match_embed fuel rest)).
      fold (bad m). destruct (bad m); [reflexivity|].
      cbn [orb]. unfold bind. rewrite IH.
      destruct (existsb bad (matches_from match_embed fuel rest));
        [reflexivity|].
      unfold ret. fold (nf m). now rewrite <- app_assoc, <- Es.
    + destruct s as [|c s].
      * cbn [existsb map]. now rewrite app_nil_r.
      * unfold bind. rewrite IH.
        now destruct (existsb bad (matches_from match_embed fuel s)).
Qed.

(** With the attachment directory missing the embed pass changes no
    text and no file.  When [Path.rglob] accepts every candidate of
    every embed token, each embed reference stays as written and one
    not-found diagnostic is printed for each, in the order of the
    text; when some candidate holds [**] and is not [**] itself, the
    pass raises the [ValueError] of [Path.rglob]. *)
Theorem embed_pass_with_missing_attachments
        (fnmatch : string -> string -> bool) (cfg : config) (w : world)
        (s : string) :
  stat (fs w) (attachment_dir cfg) = None ->
  re_sub match_embed (repl_obsidian fnmatch cfg) s w
  = if existsb (fun m => existsb invalid_pattern
                                 (candidates (Str.strip (e_token m))))
               (finditer match_embed s)
    then Raise ValueError
    else Ok s {| fs := fs w;
                 out := (out w
                           ++ map (fun m => NotFound (Str.strip (e_token m)))
                                  (finditer match_embed s))%list |}.
Proof.
  intros H. unfold re_sub, finditer. destruct w as [t o].
  now apply embed_pass_without_root.
Qed.

Lemma embed_pass_with_missing_attachments_witness :
  re_sub match_embed (repl_obsidian fnmatch_simple cfg)
         "a ![[logo]] b ![[pic|10x10]]" (start tree_bare)
  = Ok "a ![[logo]] b ![[pic|10x10]]"
       {| fs := tree_bare; out := [NotFound "logo"; NotFound "pic"] |}
  /\ re_sub match_embed (repl_obsidian fnmatch_simple cfg)
            "a ![[logo]] b ![[x**y]]" (start tree_bare)
     = Raise ValueError.
Proof.
  split.
  - apply (embed_pass_with_missing_attachments
             fnmatch_simple cfg (start tree_bare)
             "a ![[logo]] b ![[pic|10x10]]").
    reflexivity.
  - apply (embed_pass_with_missing_attachments
             fnmatch_simple cfg (start tree_bare)
             "a ![[logo]] b ![[x**y]]").
    reflexivity.
Defined.

(** *** One reference in a text *)

Lemma tag_then_text_clean (name wa ha post : string) :
  Str.occurs2 "!" "[" (img_tag name wa ha) = false ->
  Str.contains "!" post = false ->
  Str.occurs2 "!" "[" (img_tag name wa ha ++ post) = false.
Proof.
  intros Ht Hp.
  set (body := "<img src=" ++ Str.dq ++ "image/" ++ name ++ Str.dq
               ++ wa ++ ha).
  assert (E : img_tag name wa ha = body ++ ">").
  { unfold img_tag, body. now rewrite !append_assoc. }
  rewrite E in Ht |- *. rewrite append_assoc.
  rewrite occurs2_app_tail in Ht; [|reflexivity|reflexivity].
  rewrite occurs2_app_tail; [assumption| |reflexivity].
  simpl. exact Hp.
Qed.

Lemma embed_pass_single fnmatch cfg (w w1 : world) (pre post r : string)
      (m : ematch) :
  Str.contains "!" pre = false ->
  Str.contains "!" post = false ->
  match_embed (e_all m ++ post) = Some (m, post) ->
  repl_obsidian fnmatch cfg m w = Ok r w1 ->
  re_sub match_embed (repl_obsidian fnmatch cfg) (pre ++ e_all m ++ post) w
  = Ok (pre ++ r ++ post) w1.
Proof.
  intros Hpre Hpost Hm Hr. unfold re_sub. rewrite length_append.
  rewrite (sub_from_skip match_embed _ match_embed_bang) by assumption.
  pose proof (match_embed_shorter _ _ _ Hm) as L.
  destruct (String.length (e_all m ++ post)) as [|n]; [lia|].
  unfold bind at 1. rewrite (sub_from_match _ _ _ _ _ _ Hm).
  unfold bind at 1. rewrite Hr. unfold bind at 1.
  rewrite (sub_from_fixed match_embed _ match_embed_bang)
    by now apply contains_false_occurs2.
  reflexivity.
Qed.

Lemma embed_pass_single_raise fnmatch cfg (w : world) (pre post : string)
      (m : ematch) (e : exn) :
  Str.contains "!" pre = false ->
  match_embed (e_all m ++ post) = Some (m, post) ->
  repl_obsidian fnmatch cfg m w = Raise e ->
  re_sub match_embed (repl_obsidian fnmatch cfg) (pre ++ e_all m ++ post) w
  = Raise e.
Proof.
  intros Hpre Hm Hr. unfold re_sub. rewrite length_append.
  rewrite (sub_from_skip match_embed _ match_embed_bang) by assumption.
  pose proof (match_embed_shorter _ _ _ Hm) as L.
  destruct (String.length (e_all m ++ post)) as [|n]; [lia|].
  unfold bind at 1. rewrite (sub_from_match _ _ _ _ _ _ Hm).
  unfold bind at 1. now rewrite Hr.
Qed.

(** A text whose one reference is an embed of a picture that is found
    and whose name is free in the output directory: the reference
    becomes the tag of that picture, with the size the parameter
    gives, the text before and after it is kept as it is, and the
    picture is copied. *)
Theorem single_embed_is_rewritten
        (fnmatch : string -> string -> bool) (cfg : config) (md : path)
        (w : world) (pre post : string) (m : ematch) (f : path)
        (data : string) (es : list (string * node)) :
  Str.contains "!" pre = false ->
  Str.contains "!" post = false ->
  match_embed (e_all m ++ post) = Some (m, post) ->
  first_hit fnmatch (fs w) (attachment_dir cfg)
            (candidates (Str.strip (e_token m))) = inr (Some f) ->
  stat (fs w) f = Some (File data) ->
  ~ In ".." (target_dir cfg) ->
  lookup (fs w) (image_dir cfg) = Some (Dir es) ->
  exists_ (fs w) (pjoin (image_dir cfg) (pname f)) = false ->
  Str.occurs2 "!" "[" (pname f) = false ->
  exists w',
    rewrite fnmatch cfg md (pre ++ e_all m ++ post) w
    = Ok (pre ++ img_tag (pname f) (fst (size_attrs (e_param m)))
                         (snd (size_attrs (e_param m))) ++ post) w'
    /\ stat (fs w') (image_dir cfg ++ [pname f])%list = Some (File data)
    /\ extends (fs w) (fs w')
    /\ out w' = (out w ++ [Copied (pname f) (pname f)])%list.
Proof.
  intros Hpre Hpost Hm Hf Hsrc Hc Hdir Hfree Hname.
  destruct (copy_fresh cfg Hc w es f data Hdir Hsrc Hfree)
    as [t' [Hcp [Hnone [Hd [_ Hext]]]]].
  set (w' := {| fs := t';
                out := (out w ++ [Copied (pname f) (pname f)])%list |}) in *.
  set (tag := img_tag (pname f) (fst (size_attrs (e_param m)))
                      (snd (size_attrs (e_param m)))).
  assert (Hr : repl_obsidian fnmatch cfg m w = Ok tag w').
  { rewrite repl_obsidian_unfold, Hf, Hcp. unfold pname at 1.
    now rewrite last_last. }
  assert (Hne : pname f <> "").
  { intros E. unfold pjoin in Hfree. rewrite E in Hfree. simpl in Hfree.
    unfold exists_ in Hfree.
    rewrite stat_clean, Hdir in Hfree by now apply image_dir_clean.
    discriminate. }
  exists w'. split; [|split; [|split]].
  - unfold rewrite, bind.
    rewrite (embed_pass_single fnmatch cfg w w' pre post tag m
                               Hpre Hpost Hm Hr).
    unfold re_sub.
    rewrite (sub_from_fixed match_std _ match_std_bang); [reflexivity|].
    rewrite occurs2_app_left by assumption.
    apply tag_then_text_clean; [|assumption].
    now apply img_tag_clean.
  - apply (stat_new_entry t' (image_dir cfg) es); auto.
    + now apply image_dir_clean.
    + now apply (file_not_dotdot (fs w) f data).
  - exact Hext.
  - reflexivity.
Qed.

Lemma single_embed_is_rewritten_witness :
  exists w',
    rewrite fnmatch_simple cfg post "Our logo: ![[logo|100x50]], see?"
            (start tree_logo)
    = Ok ("Our logo: "
          ++ img_tag "logo.png" (attr "width" "100") (attr "height" "50")
          ++ ", see?") w'
    /\ stat (fs w') ["content"; "image"; "logo.png"] = Some (File "LOGO")
    /\ extends tree_logo (fs w')
    /\ out w' = [Copied "logo.png" "logo.png"].
Proof.
  apply (single_embed_is_rewritten
           fnmatch_simple cfg post (start tree_logo)
           "Our logo: " ", see?" sized_match logo_src "LOGO" []);
    try reflexivity.
  simpl. intros [H|[]]. discriminate.
Defined.

(** A text whose first reference is an embed that the locator answers
    with a directory is not rewritten at all: the copy raises
    [IsADirectoryError] and nothing catches it. *)
Theorem embed_of_directory_aborts
        (fnmatch : string -> string -> bool) (cfg : config) (md : path)
        (w : world) (pre post : string) (m : ematch) (f : path)
        (es es0 : list (string * node)) :
  Str.contains "!" pre = false ->
  match_embed (e_all m ++ post) = Some (m, post) ->
  first_hit fnmatch (fs w) (attachment_dir cfg)
            (candidates (Str.strip (e_token m))) = inr (Some f) ->
  stat (fs w) f = Some (Dir es0) ->
  ~ In ".." (target_dir cfg) ->
  lookup (fs w) (image_dir cfg) = Some (Dir es) ->
  rewrite fnmatch cfg md (pre ++ e_all m ++ post) w
  = Raise IsADirectoryError.
Proof.
  intros Hpre Hm Hf Hsrc Hc Hdir.
  assert (Hr : repl_obsidian fnmatch cfg m w = Raise IsADirectoryError).
  { rewrite repl_obsidian_unfold, Hf.
    now rewrite (copy_of_directory_raises cfg w f es es0 Hc Hdir Hsrc). }
  unfold rewrite, bind.
  now rewrite (embed_pass_single_raise fnmatch cfg w pre post m _ Hpre Hm Hr).
Qed.

Lemma embed_of_directory_aborts_witness :
  rewrite fnmatch_simple cfg post "See ![[logo]] and ![[other]]."
          (start tree_folder)
  = Raise IsADirectoryError.
Proof.
  apply (embed_of_directory_aborts
           fnmatch_simple cfg post (start tree_folder)
           "See " " and ![[other]]."
           {| e_all := "![[logo]]"; e_token := "logo"; e_param := None |}
           ["vault"; "attachment"; "logo"]
           [] [("logo.png", File "LOGO")]);
    try reflexivity.
  simpl. intros [H|[]]. discriminate.
Defined.

End RewriteMore.

(* ================================================================== *)
(** ** One document: [_process_single_markdown] *)

Module ProcessMore.
Import Str PathLib FS Re Eff Shutil Sync Fixtures.
Import StrFacts FSFacts CopyFacts CopyMore RewriteFacts RewriteMore.

Lemma relative_to_app (base rel : path) :
  relative_to base (base ++ rel)%list = Some rel.
Proof.
  induction base as [|b base IH]; simpl; [reflexivity|].
  now rewrite String.eqb_refl.
Qed.

Lemma relative_to_inv (base : path) :
  forall p rel, relative_to base p = Some rel -> p = (base ++ rel)%list.
Proof.
  induction base as [|b base IH]; intros p rel H; simpl in *.
  - now injection H as ->.
  - destruct p as [|c p]; [discriminate|].
    destruct (b =? c) eqn:E; [|discriminate].
    apply String.eqb_eq in E. subst c. f_equal. now apply IH.
Qed.

(** [relative_to] answers with what follows the base, component by
    component, and with nothing for a path that does not begin with
    the base.  No [..] is resolved and no file is looked at. *)
Theorem relative_to_is_prefix_removal (base p rel : path) :
  relative_to base p = Some rel <-> p = (base ++ rel)%list.
Proof.
  split; [apply relative_to_inv|]. intros ->. apply relative_to_app.
Qed.

Lemma process_unfold fnmatch cfg md rel (w : world) :
  relative_to (target_dir cfg) md = Some rel ->
  let skipped :=
    Ok tt {| fs := fs w;
             out := ((out w ++ [Processing rel])
                       ++ [ReadFailed rel])%list |} in
  _process_single_markdown fnmatch cfg md w
  = match stat (fs w) md with
    | Some (File data) =>
        if Str.utf8_valid data then
          match rewrite fnmatch cfg md (Str.universal_newlines data)
                        {| fs := fs w;
                           out := (out w ++ [Processing rel])%list |} with
          | Ok content w2 =>
              if content =? Str.universal_newlines data then Ok tt w2
              else try_except (write_text md content)
                              (fun _ => print (WriteFailed rel)) w2
          | Raise e => Raise e
          end
        else skipped
    | _ => skipped
    end.
Proof.
  intros R skipped. unfold skipped, _process_single_markdown. rewrite R.
  unfold bind at 1. unfold print at 1. cbv beta iota.
  unfold bind at 1. unfold try_except at 1. unfold bind at 1.
  unfold read_text, bind, get_fs. cbv beta iota. cbn [fs out].
  destruct (stat (fs w) md) as [[data|es]|];
    unfold ret, raise, print; cbv beta iota; cbn [fs out];
    try reflexivity.
  destruct (Str.utf8_valid data); cbv beta iota; cbn [fs out];
    [|reflexivity].
  destruct (rewrite fnmatch cfg md (Str.universal_newlines data) _)
    as [content w2|e]; [|reflexivity].
  destruct (content =? Str.universal_newlines data); reflexivity.
Qed.

Lemma write_text_existing (md : path) (content old : string) (w : world) :
  stat (fs w) md = Some (File old) ->
  exists q tree',
    walk (fs w) [] md = Some q
    /\ lookup (fs w) q = Some (File old)
    /\ put q (File content) (fs w) = Some tree'
    /\ write_text md content w = Ok tt {| fs := tree'; out := out w |}.
Proof.
  intros H. unfold stat in H.
  destruct (walk (fs w) [] md) as [q|] eqn:Wq; [|discriminate].
  destruct (put_existing q (File content) (fs w) old H) as [tree' P].
  exists q, tree'. repeat split; auto.
  unfold write_text, bind, get_fs, set_fs. cbv beta iota.
  now rewrite Wq, H, P.
Qed.

(** A path that is not a readable file (missing, or a directory): the
    two lines are printed, the exception is swallowed and the file
    system is left as it was. *)
Theorem unreadable_document_is_skipped
        (fnmatch : string -> string -> bool) (cfg : config)
        (md rel : path) (w : world) :
  relative_to (target_dir cfg) md = Some rel ->
  is_file (fs w) md = false ->
  _process_single_markdown fnmatch cfg md w
  = Ok tt {| fs := fs w;
             out := (out w ++ [Processing rel; ReadFailed rel])%list |}.
Proof.
  intros R F. rewrite (process_unfold fnmatch cfg md rel w R).
  unfold is_file in F. rewrite <- app_assoc.
  destruct (stat (fs w) md) as [[data|es]|]; [discriminate| |]; reflexivity.
Qed.

Lemma unreadable_document_is_skipped_witness :
  _process_single_markdown fnmatch_simple cfg
                           ["content"; "image"] (start tree_bare)
  = Ok tt {| fs := tree_bare;
             out := [Processing ["image"]; ReadFailed ["image"]] |}.
Proof.
  apply (unreadable_document_is_skipped
           fnmatch_simple cfg ["content"; "image"] ["image"]
           (start tree_bare)); reflexivity.
Defined.

(** A document that holds well-formed UTF-8 is read with its line
    ends translated.  An exception of the rewriting leaves
    [_process_single_markdown] as it is.  Otherwise the call returns
    and prints no further line; a text the rewriting leaves alone is
    not written, so the file keeps its bytes, line ends included; a
    text it changes is written, the document then holds the rewritten
    text and every other regular file is as the rewriting left it:
    the write never fails on a file that was just read. *)
Theorem readable_document_is_rewritten
        (fnmatch : string -> string -> bool) (cfg : config)
        (md rel : path) (data : string) (w : world) :
  relative_to (target_dir cfg) md = Some rel ->
  stat (fs w) md = Some (File data) ->
  Str.utf8_valid data = true ->
  let original_content := Str.universal_newlines data in
  match rewrite fnmatch cfg md original_content
                {| fs := fs w; out := (out w ++ [Processing rel])%list |}
  with
  | Raise e => _process_single_markdown fnmatch cfg md w = Raise e
  | Ok content w2 =>
      exists w3,
        _process_single_markdown fnmatch cfg md w = Ok tt w3
        /\ out w3 = out w2
        /\ (content = original_content -> w3 = w2)
        /\ (content <> original_content ->
            stat (fs w3) md = Some (File content)
            /\ forall p d, stat (fs w2) p = Some (File d) ->
                           walk (fs w2) [] p <> walk (fs w2) [] md ->
                           stat (fs w3) p = Some (File d))
  end.
Proof.
  intros R S V original_content.
  rewrite (process_unfold fnmatch cfg md rel w R), S, V.
  fold original_content.
  destruct (rewrite fnmatch cfg md original_content _) as [content w2|e]
    eqn:E; [|reflexivity].
  apply rewrite_grows in E. destruct E as [Ext _]. cbn [fs] in Ext.
  pose proof (Ext md data S) as S2.
  destruct (content =? original_content) eqn:C.
  - apply String.eqb_eq in C.
    exists w2. repeat split; auto. congruence.
  - destruct (write_text_existing md content data w2 S2)
      as [q [tree' [Wq [Lq [P Wr]]]]].
    assert (Nd : forall es, lookup (fs w2) q <> Some (Dir es))
      by (intros es; rewrite Lq; discriminate).
    destruct (put_frame q (File content) (fs w2) tree' P Nd)
      as [H1 [H2 H3]].
    assert (Hd : forall q0 e1, lookup (fs w2) q0 = Some (Dir e1) ->
                               exists e2, lookup tree' q0 = Some (Dir e2)).
    { intros q0 e1 Hq. apply (H3 q0 e1); [|assumption].
      intros ->. rewrite Lq in Hq. discriminate. }
    exists {| fs := tree'; out := out w2 |}.
    unfold try_except. rewrite Wr. cbn [fs out].
    split; [reflexivity|]. split; [reflexivity|]. split.
    + intros ->. rewrite String.eqb_refl in C. discriminate.
    + intros _. split.
      * unfold stat. now rewrite (walk_mono _ _ _ _ _ Hd Wq).
      * intros p d Sp Np. unfold stat in Sp |- *.
        destruct (walk (fs w2) [] p) as [qp|] eqn:Wp; [|discriminate].
        rewrite (walk_mono _ _ _ _ _ Hd Wp). apply H2; [|assumption].
        intros ->. apply Np. now rewrite Wq.
Qed.

Lemma readable_document_is_rewritten_witness :
  let original_content := Str.universal_newlines tree_crlf_text in
  match rewrite fnmatch_simple cfg post original_content
                {| fs := tree_crlf; out := [Processing ["post.md"]] |}
  with
  | Raise e =>
      _process_single_markdown fnmatch_simple cfg post (start tree_crlf)
      = Raise e
  | Ok content w2 =>
      exists w3,
        _process_single_markdown fnmatch_simple cfg post (start tree_crlf)
        = Ok tt w3
        /\ out w3 = out w2
        /\ (content = original_content -> w3 = w2)
        /\ (content <> original_content ->
            stat (fs w3) post = Some (File content)
            /\ forall p d, stat (fs w2) p = Some (File d) ->
                           walk (fs w2) [] p <> walk (fs w2) [] post ->
                           stat (fs w3) p = Some (File d))
  end.
Proof.
  apply (readable_document_is_rewritten
           fnmatch_simple cfg post ["post.md"]
           tree_crlf_text (start tree_crlf));
    reflexivity.
Defined.

(** The document of the scenario above after the call: the line ends
    are line feeds and both embeds are tags. *)
Lemma crlf_document_is_rewritten :
  match _process_single_markdown fnmatch_simple cfg post (start tree_crlf)
  with
  | Ok _ w' =>
      stat (fs w') post
      = Some (File ("a" ++ Re.newline ++ img_tag "logo.png" "" ""
                        ++ Re.newline ++ "b" ++ Re.newline))
  | Raise _ => False
  end.
Proof. vm_compute. reflexivity. Qed.

(** A document whose bytes are not UTF-8 is not rewritten: the
    decoding error is caught like any other error of the read. *)
Theorem undecodable_document_is_skipped
        (fnmatch : string -> string -> bool) (cfg : config)
        (md rel : path) (data : string) (w : world) :
  relative_to (target_dir cfg) md = Some rel ->
  stat (fs w) md = Some (File data) ->
  Str.utf8_valid data = false ->
  _process_single_markdown fnmatch cfg md w
  = Ok tt {| fs := fs w;
             out := (out w ++ [Processing rel; ReadFailed rel])%list |}.
Proof.
  intros R S V. rewrite (process_unfold fnmatch cfg md rel w R), S, V.
  now rewrite <- app_assoc.
Qed.

Lemma undecodable_document_is_skipped_witness :
  _process_single_markdown fnmatch_simple cfg post (start tree_latin1)
  = Ok tt {| fs := tree_latin1;
             out := [Processing ["post.md"]; ReadFailed ["post.md"]] |}.
Proof.
  apply (undecodable_document_is_skipped
           fnmatch_simple cfg post ["post.md"]
           (String (ascii_of_nat 233) "![[logo]]") (start tree_latin1));
    reflexivity.
Defined.

End ProcessMore.

(* ================================================================== *)
(** ** Clearing the output directory: [_clear_target] *)

Module ClearProps.
Import PathLib FS Sync Driver Fixtures.
Import FSFacts CopyFacts.

Lemma resolve_walk (root : node) (p : path) :
  forall acc q, walk root acc p = Some q -> resolve root acc p = inr q.
Proof.
  induction p as [|c p IH]; intros acc q H; simpl in *.
  - now injection H as ->.
  - destruct (lookup root acc) as [[d|es]|]; try discriminate.
    destruct (c =? ".."); auto.
Qed.

Lemma resolve_clean (root : node) (p : path) :
  forall acc q, ~ In ".." p -> resolve root acc p = inr q ->
                q = (acc ++ p)%list.
Proof.
  induction p as [|c p IH]; intros acc q Hc H; simpl in *.
  - injection H as <-. now rewrite app_nil_r.
  - destruct (lookup root acc) as [[d|es]|]; try discriminate.
    destruct (String.eqb_spec c "..") as [->|_];
      [exfalso; apply Hc; now left|].
    apply IH in H; [|intros X; apply Hc; now right].
    now rewrite <- app_assoc in H.
Qed.

Lemma resolve_error (root : node) (p : path) :
  forall acc e, resolve root acc p = inl e -> e = ENOENT \/ e = ENOTDIR.
Proof.
  induction p as [|c p IH]; intros acc e H; simpl in *; [discriminate|].
  destruct (lookup root acc) as [[d|es]|].
  - injection H as <-. now right.
  - destruct (c =? ".."); eauto.
  - injection H as <-. now left.
Qed.

Lemma resolve_present (root : node) (p : path) (x : node) :
  ~ In ".." p -> lookup root p = Some x -> resolve root [] p = inr p.
Proof.
  intros Hc H. apply resolve_walk. destruct p as [|c p]; [reflexivity|].
  apply (walk_clean_some root (c :: p) []); auto; [discriminate|].
  destruct (lookup_removelast _ _ _ H) as [E|H1]; [discriminate|exact H1].
Qed.

Lemma set_entry_twice {A : Type} (k : string) (a b : A) l :
  set_entry k b (set_entry k a l) = set_entry k b l.
Proof.
  induction l as [|[k' v'] l IH]; simpl.
  - now rewrite String.eqb_refl.
  - destruct (k' =? k) eqn:E; simpl.
    + now rewrite String.eqb_refl.
    + now rewrite E, IH.
Qed.

Lemma set_entry_same {A : Type} (k : string) (v : A) l :
  assoc k l = Some v -> set_entry k v l = l.
Proof.
  induction l as [|[k' v'] l IH]; simpl; intros H; [discriminate|].
  destruct (String.eqb_spec k' k) as [->|N].
  - now injection H as ->.
  - f_equal. auto.
Qed.

Lemma put_same (p : path) :
  forall t x, lookup t p = Some x -> put p x t = Some t.
Proof.
  induction p as [|c p IH]; intros t x H; simpl in *.
  - congruence.
  - destruct t as [d|es]; [discriminate|].
    destruct (assoc c es) as [ch|] eqn:E; [|discriminate].
    rewrite (IH ch x H). now rewrite (set_entry_same c ch es E).
Qed.

Lemma put_over (p : path) (y : node) :
  forall t x, lookup t p = Some x -> exists t', put p y t = Some t'.
Proof.
  induction p as [|c p IH]; intros t x H; simpl in *; [eauto|].
  destruct t as [d|es]; [discriminate|].
  destruct (assoc c es) as [ch|]; [|discriminate].
  destruct (IH ch x H) as [ch' ->]. eauto.
Qed.

Lemma put_lookup (p : path) (x : node) :
  forall t t', put p x t = Some t' -> lookup t' p = Some x.
Proof.
  induction p as [|c p IH]; intros t t' H; simpl in *.
  - now injection H as <-.
  - destruct t as [d|es]; [discriminate|].
    destruct (assoc c es) as [ch|].
    + destruct (put p x ch) as [ch'|] eqn:E; [|discriminate].
      injection H as <-. simpl. rewrite assoc_set_entry_same. eauto.
    + destruct p; [|discriminate]. injection H as <-. simpl.
      now rewrite assoc_set_entry_same.
Qed.

Lemma put_put (p : path) (x y : node) :
  forall t t1, put p x t = Some t1 -> put p y t1 = put p y t.
Proof.
  induction p as [|c p IH]; intros t t1 H; simpl in *; [reflexivity|].
  destruct t as [d|es]; [discriminate|].
  destruct (assoc c es) as [ch|].
  - destruct (put p x ch) as [ch'|] eqn:E; [|discriminate].
    injection H as <-. rewrite assoc_set_entry_same.
    rewrite (IH ch ch' E). destruct (put p y ch); [|reflexivity].
    now rewrite set_entry_twice.
  - destruct p; [|discriminate]. injection H as <-.
    rewrite assoc_set_entry_same. simpl. now rewrite set_entry_twice.
Qed.

Lemma put_child (p : path) (c : string) (x : node) :
  forall t es, lookup t p = Some (Dir es) ->
               put (p ++ [c])%list x t = put p (Dir (set_entry c x es)) t.
Proof.
  induction p as [|a p IH]; intros t es H; simpl in *.
  - injection H as ->. now destruct (assoc c es).
  - destruct t as [d|es0]; [discriminate|].
    destruct (assoc a es0) as [ch|]; [|discriminate].
    now rewrite (IH ch es H).
Qed.

Lemma remove_head (p : path) (k : string) (n : node) es' :
  forall t, lookup t p = Some (Dir ((k, n) :: es')) ->
            remove (p ++ [k])%list t = put p (Dir es') t.
Proof.
  induction p as [|a p IH]; intros t H; simpl in *.
  - injection H as ->. simpl. now rewrite String.eqb_refl.
  - destruct t as [d|es0]; [discriminate|].
    destruct (assoc a es0) as [ch|]; [|discriminate].
    rewrite <- (IH ch H).
    destruct (p ++ [k])%list eqn:E; [now destruct p|reflexivity].
Qed.

Lemma stat_child (t : node) (target : path) (k : string) (n : node) es :
  ~ In ".." target -> k <> ".." ->
  lookup t target = Some (Dir ((k, n) :: es)) ->
  resolve t [] (target ++ [k])%list = inr (target ++ [k])%list
  /\ stat t (target ++ [k])%list = Some n
  /\ lookup t (target ++ [k])%list = Some n.
Proof.
  intros Hc Hk H.
  assert (L : lookup t (target ++ [k])%list = Some n).
  { rewrite lookup_app, H. simpl. now rewrite String.eqb_refl. }
  assert (C : ~ In ".." (target ++ [k])%list).
  { intros X. apply in_app_or in X as [X|[X|[]]]; auto. }
  split; [now apply (resolve_present t _ n)|]. split; [|exact L].
  now rewrite stat_clean.
Qed.

(** The loop removes every entry it was given. *)
Lemma clear_items_all (target : path) :
  ~ In ".." target ->
  forall es t,
    lookup t target = Some (Dir es) ->
    ~ In ".." (map fst es) ->
    exists t',
      clear_items (map (fun k => (target ++ [k])%list) (map fst es)) t
      = inr t'
      /\ put target (Dir []) t = Some t'.
Proof.
  intros Hc. induction es as [|[k n] es IH]; intros t H Hn; simpl.
  - exists t. split; [reflexivity|]. now apply put_same.
  - assert (Hk : k <> "..") by (intros ->; apply Hn; now left).
    destruct (stat_child t target k n es Hc Hk H) as [R [S L]].
    destruct (put_over target (Dir es) t _ H) as [t1 P].
    assert (Rm : remove (target ++ [k])%list t = Some t1)
      by now rewrite (remove_head target k n es t H).
    assert (Step : clear_item t (target ++ [k])%list = inr t1).
    { unfold clear_item, is_dir, rmtree, unlink. rewrite S, R, L.
      destruct n as [d|es0]; now rewrite Rm. }
    rewrite Step.
    destruct (IH t1 (put_lookup _ _ _ _ P)) as [t' [Hl Hp]].
    { intros X. apply Hn. now right. }
    exists t'. split; [exact Hl|].
    now rewrite <- (put_put target (Dir es) (Dir []) t t1 P).
Qed.

Lemma mkdir_parents_first (n : nat) (ok : bool) (p : path) (t t' : node) :
  os_mkdir p t = inr t' -> mkdir_parents n ok p t = inr t'.
Proof. intros H. destruct n; simpl; now rewrite H. Qed.

Lemma mkdir_in_empty (target : path) (t : node) :
  ~ In ".." target ->
  lookup t target = Some (Dir []) ->
  exists t',
    mkdir true (target ++ ["image"])%list t = inr t'
    /\ put target (Dir [("image", Dir [])]) t = Some t'.
Proof.
  intros Hc H.
  destruct (put_over target (Dir [("image", Dir [])]) t _ H) as [t' P].
  exists t'. split; [|exact P].
  apply mkdir_parents_first. unfold os_mkdir.
  destruct (target ++ ["image"])%list as [|c l] eqn:E;
    [now destruct target|].
  rewrite <- E, removelast_last, last_last.
  rewrite (resolve_present t target _ Hc H), H.
  cbv beta iota zeta. cbn [assoc].
  replace ("image" =? "..") with false by reflexivity.
  rewrite (put_child target "image" (Dir []) t [] H).
  cbn [set_entry]. now rewrite P.
Qed.

Lemma clear_target_spec (cfg : config) (s : sys) es :
  ~ In ".." (target_dir cfg) ->
  lookup (tree s) (target_dir cfg) = Some (Dir es) ->
  ~ In ".." (map fst es) ->
  exists t',
    _clear_target cfg s
    = inr {| tree := t'; lines := (lines s ++ [Clearing])%list |}
    /\ put (target_dir cfg) (Dir [("image", Dir [])]) (tree s) = Some t'.
Proof.
  intros Hc H Hn. unfold _clear_target, listdir.
  rewrite (resolve_present _ _ _ Hc H), H.
  destruct (clear_items_all _ Hc es (tree s) H Hn) as [t1 [L P1]].
  rewrite L.
  destruct (mkdir_in_empty (target_dir cfg) t1 Hc (put_lookup _ _ _ _ P1))
    as [t2 [M P2]].
  unfold image_dir. rewrite M. exists t2. split; [reflexivity|].
  now rewrite <- (put_put _ (Dir []) _ (tree s) t1 P1).
Qed.

(** Clearing an output directory: the call returns, one line is
    printed, and the tree is the one before with the output directory
    replaced by a directory that holds an empty [image] and nothing
    else.  What is outside the output directory is as before. *)
Theorem clear_target_resets_target (cfg : config) (s : sys) es :
  ~ In ".." (target_dir cfg) ->
  lookup (tree s) (target_dir cfg) = Some (Dir es) ->
  ~ In ".." (map fst es) ->
  exists t',
    _clear_target cfg s
    = inr {| tree := t'; lines := (lines s ++ [Clearing])%list |}
    /\ put (target_dir cfg) (Dir [("image", Dir [])]) (tree s) = Some t'
    /\ lookup t' (image_dir cfg) = Some (Dir []).
Proof.
  intros Hc H Hn.
  destruct (clear_target_spec cfg s es Hc H Hn) as [t' [E P]].
  exists t'. split; [exact E|]. split; [exact P|].
  unfold image_dir. rewrite lookup_app, (put_lookup _ _ _ _ P).
  reflexivity.
Qed.

Lemma clear_target_resets_target_witness :
  exists t',
    _clear_target cfg {| tree := tree_stale; lines := [] |}
    = inr {| tree := t'; lines := [Clearing] |}
    /\ put ["content"] (Dir [("image", Dir [])]) tree_stale = Some t'
    /\ lookup t' ["content"; "image"] = Some (Dir []).
Proof.
  apply (clear_target_resets_target
           cfg {| tree := tree_stale; lines := [] |}
           [("image", Dir [("old.png", File "OLD")]);
            ("post.md", File "text");
            ("notes", Dir [("a.md", File "A"); ("deep", Dir [])])]).
  - simpl. intros [H|[]]. discriminate.
  - reflexivity.
  - simpl. intros [H|[H|[H|[]]]]; discriminate.
Defined.

(** Without a directory at the output path nothing is cleared: the
    listing raises [FileNotFoundError] or [NotADirectoryError]. *)
Theorem clear_target_needs_directory (cfg : config) (s : sys) :
  ~ In ".." (target_dir cfg) ->
  (forall es, lookup (tree s) (target_dir cfg) <> Some (Dir es)) ->
  _clear_target cfg s = inl ENOENT \/ _clear_target cfg s = inl ENOTDIR.
Proof.
  intros Hc H. unfold _clear_target, listdir.
  destruct (resolve (tree s) [] (target_dir cfg)) as [e|q] eqn:R.
  - destruct (resolve_error _ _ _ _ R) as [->| ->]; auto.
  - apply resolve_clean in R; [|assumption]. simpl in R. subst q.
    destruct (lookup (tree s) (target_dir cfg)) as [[d|es]|]; auto.
    exfalso. now apply (H es).
Qed.

Lemma clear_target_needs_directory_witness :
  _clear_target cfg {| tree := Dir [("content", File "x")]; lines := [] |}
  = inl ENOENT
  \/ _clear_target cfg {| tree := Dir [("content", File "x")]; lines := [] |}
     = inl ENOTDIR.
Proof.
  apply (clear_target_needs_directory
           cfg {| tree := Dir [("content", File "x")]; lines := [] |}).
  - simpl. intros [H|[]]. discriminate.
  - intros es. simpl. discriminate.
Defined.

(** Clearing twice leaves the tree of clearing once. *)
Theorem clear_target_twice (cfg : config) (s s1 : sys) es :
  ~ In ".." (target_dir cfg) ->
  lookup (tree s) (target_dir cfg) = Some (Dir es) ->
  ~ In ".." (map fst es) ->
  _clear_target cfg s = inr s1 ->
  _clear_target cfg s1
  = inr {| tree := tree s1; lines := (lines s1 ++ [Clearing])%list |}.
Proof.
  intros Hc H Hn E.
  destruct (clear_target_spec cfg s es Hc H Hn) as [t1 [E1 P1]].
  rewrite E1 in E. injection E as <-. cbn [tree lines].
  pose proof (put_lookup _ _ _ _ P1) as L1.
  destruct (clear_target_spec
              cfg {| tree := t1; lines := (lines s ++ [Clearing])%list |}
              [("image", Dir [])] Hc L1) as [t2 [E2 P2]].
  { simpl. intros [X|[]]. discriminate. }
  cbn [tree lines] in *. rewrite E2. do 2 f_equal.
  rewrite (put_same _ _ _ L1) in P2. congruence.
Qed.

Lemma clear_target_twice_witness :
  _clear_target cfg {| tree := tree_cleared; lines := [Clearing] |}
  = inr {| tree := tree_cleared; lines := [Clearing; Clearing] |}.
Proof.
  apply (clear_target_twice
           cfg {| tree := tree_stale; lines := [] |}
           {| tree := tree_cleared; lines := [Clearing] |}
           [("image", Dir [("old.png", File "OLD")]);
            ("post.md", File "text");
            ("notes", Dir [("a.md", File "A"); ("deep", Dir [])])]).
  - simpl. intros [H|[]]. discriminate.
  - reflexivity.
  - simpl. intros [H|[H|[H|[]]]]; discriminate.
  - reflexivity.
Defined.

End ClearProps.
